(** * dogconf: semantic analysis of routing-table requests

    A shallow embedding of the Go package [dogconf] (the semantic analyzer
    [sem.go] in the revision that analyzes Patch, Create and Get, its types
    [sem_types.go] and the address helper [net_help.go]) together with the
    properties its specification states about it.

    Conventions of the embedding:
    - Go [string]s are byte strings: [string] of the Standard Library;
    - Go [int] and [uint64] values are [Z]; [dtoi] is shown to stay far below
      the 32-bit limit, so no wrap-around is ever taken;
    - a function returning [(T, error)] returns a pair whose second component
      is [None] for a [nil] error; a [panic] is the outcome [Panics];
    - [map[*Token]*Token] is keyed by token pointers: it is an association
      list in which two entries may carry the same field name, and each
      [range] over it visits the entries in an order picked by the runtime;
    - the functions of the Go standard library that the package calls
      ([net.SplitHostPort], [net.ParseIP], [net.LookupPort],
      [strconv.ParseUint]) are a parameter of the development. *)

From Stdlib Require Import ZArith List String Ascii Bool Lia Permutation.
From Stdlib Require Import DecimalString.
Import ListNotations.

Local Open Scope string_scope.
Local Open Scope Z_scope.

(** ** Outcomes of a call *)

(** What a [panic] carries. *)
Inductive panicValue : Type :=
| SliceBoundsOutOfRange
| UnhandleableToken (lexeme : string).

Inductive outcome (A : Type) : Type :=
| Returns (a : A)
| Panics (why : panicValue).

Arguments Returns {A} a.
Arguments Panics {A} why.

(** ** Syntax handed over by the parser *)

(** Modelled from the spec: the token and syntax-tree declarations of the
    parser are missing from the sources; section 6 of the specification gives
    a token a literal text (quotes included) and a source position, a target
    specification the three shapes all/one/versioned with their tokens, and
    the Patch and Create actions a property mapping. *)
Record Position : Type := { Line : Z; Col : Z }.

Record Token : Type := { Lexeme : string; Pos : Position }.

(** [map[*Token]*Token]: the entries of the map, keyed by pointer. *)
Definition Props : Type := list (Token * Token).

Inductive TargetSpecSyntax : Type :=
| TargetAllSpecSyntax (tok : Token)
| TargetOneSpecSyntax (What : Token)
| TargetOcnSpecSyntax (What Ocn : Token).

Inductive ActionSyntax : Type :=
| PatchActionSyntax (PatchProps : Props)
| CreateActionSyntax (CreateProps : Props)
| GetActionSyntax
| DeleteActionSyntax.

Record RequestSyntax : Type := { Spec : TargetSpecSyntax; Action : ActionSyntax }.

(** The values used as a [Blamer] (anything with a [Blame()] method): tokens,
    target specifications and actions. *)
Inductive Blamer : Type :=
| BlameToken (t : Token)
| BlameSpec (s : TargetSpecSyntax)
| BlameAction (a : ActionSyntax).

(** The [%T] verb on a target specification. *)
Definition typeName (s : TargetSpecSyntax) : string :=
  match s with
  | TargetAllSpecSyntax _ => "*dogconf.TargetAllSpecSyntax"
  | TargetOneSpecSyntax _ => "*dogconf.TargetOneSpecSyntax"
  | TargetOcnSpecSyntax _ _ => "*dogconf.TargetOcnSpecSyntax"
  end.

(** ** Errors *)

(** The error values the package builds or passes on.  [semError blam msg]
    is the result of [semErrf]: the text [<position of blam>: <msg>]. *)
Inductive error : Type :=
| errorString (text : string)
| AddrError (Err Addr : string)
| libError (text : string)
| semError (blam : Blamer) (msg : string)
| ErrBadTarget (e : error).

(** ** net_help.go *)

Definition IP : Type := list Z.

Record TCPAddr : Type := { tcpIP : option IP; tcpPort : Z }.

(** The standard-library functions the package calls.  An error of the
    library is known by its text. *)
Record GoLib : Type := {
  SplitHostPort : string -> (string * string) + string;
  ParseIP : string -> option IP;
  LookupPort : string -> string -> Z + string;
  ParseUint : string -> Z -> Z -> Z + string
}.

Definition big : Z := 0xFFFFFF.

Definition isDigit (c : ascii) : bool :=
  (48 <=? Z.of_nat (nat_of_ascii c)) && (Z.of_nat (nat_of_ascii c) <=? 57).

Definition digitVal (c : ascii) : Z := Z.of_nat (nat_of_ascii c) - 48.

(** [s[i0:]], empty when [i0] is past the end. *)
Definition strFrom (i0 : nat) (s : string) : string :=
  substring i0 (String.length s - i0) s.

(** The [for] loop of [dtoi] over the bytes still to read: [inl i] is the
    early [return 0, i, false], [inr (n, i)] the values at loop exit. *)
Fixpoint dtoiLoop (rest : string) (n i : Z) : Z + (Z * Z) :=
  match rest with
  | String c rest' =>
      if isDigit c then
        let n' := n * 10 + digitVal c in
        if n' >=? big then inl i else dtoiLoop rest' n' (i + 1)
      else inr (n, i)
  | EmptyString => inr (n, i)
  end.

Definition dtoi (s : string) (i0 : nat) : Z * Z * bool :=
  match dtoiLoop (strFrom i0 s) 0 (Z.of_nat i0) with
  | inl i => (0, i, false)
  | inr (n, i) => if i =? Z.of_nat i0 then (0, i, false) else (n, i, true)
  end.

Definition strlen (s : string) : Z := Z.of_nat (String.length s).

Section NetHelp.

Variable lib : GoLib.

Definition hostPortToAddr (network hostport : string) : TCPAddr + error :=
  match SplitHostPort lib hostport with
  | inr err => inr (libError err)
  | inl (host, port) =>
      let addr : option IP + error :=
        if (host =? "")%string then inl None
        else match ParseIP lib host with
             | None => inr (errorString "Invalid IP passed")
             | Some ip => inl (Some ip)
             end in
      match addr with
      | inr err => inr err
      | inl addr =>
          let '(p, i, ok) := dtoi port 0 in
          let p' :=
            if negb ok || negb (i =? strlen port)
            then LookupPort lib network port
            else inl p in
          match p' with
          | inr err => inr (libError err)
          | inl p =>
              if (p <? 0) || (p >? 0xFFFF)
              then inr (AddrError "invalid port" port)
              else inl {| tcpIP := addr; tcpPort := p |}
          end
      end
  end.

End NetHelp.

(** ** sem_types.go *)

Record TargetAll : Type := { allBlamer : Blamer }.

Record TargetOne : Type := { oneBlamer : Blamer; What : string }.

Record TargetOcn : Type :=
  { ocnBlamer : Blamer; ocnTargetOne : TargetOne; Ocn : Z }.

(** The interface [Target] and the three struct values stored in it. *)
Inductive Target : Type :=
| TargetOfAll (t : TargetAll)
| TargetOfOne (t : TargetOne)
| TargetOfOcn (t : TargetOcn).

(** A [nil] [Blamer] or [net.Addr] is [None]. *)
Record AttrChange : Type := {
  AddrBlame : option Blamer;
  Addr : option TCPAddr;
  DbnameInBlame : option Blamer;
  DbnameIn : string;
  DbnameRewrittenBlame : option Blamer;
  DbnameRewritten : string;
  LockBlame : option Blamer;
  Lock : bool
}.

(** The zero value of the struct. *)
Definition zeroAttrChange : AttrChange :=
  {| AddrBlame := None; Addr := None;
     DbnameInBlame := None; DbnameIn := "";
     DbnameRewrittenBlame := None; DbnameRewritten := "";
     LockBlame := None; Lock := false |}.

Record PatchDirective : Type :=
  { patchBlamer : Blamer; patchTargetOcn : TargetOcn; patchChange : AttrChange }.

Record CreateDirective : Type :=
  { createBlamer : Blamer; createTargetOne : TargetOne; createChange : AttrChange }.

Record DeleteDirective : Type := { deleteTarget : Target }.

Record GetDirective : Type := { getTarget : Target }.

(** A value of the interface [Directive].  The analyzer's helpers return
    pointers to directive structs, and [Analyze] stores such a pointer in the
    interface whether it is [nil] or not: [ptrPatch None] is the interface
    value holding a [nil] [*PatchDirective], [nilDirective] the [nil]
    interface itself. *)
Inductive Directive : Type :=
| nilDirective
| ptrPatch (d : option PatchDirective)
| ptrCreate (d : option CreateDirective)
| ptrGet (d : option GetDirective)
| ptrDelete (d : option DeleteDirective).

(** ** sem.go *)

(** [semErrf blam format args...]; the caller hands over the text that
    [fmt.Sprintf(format, args...)] produces. *)
Definition semErrf (blam : Blamer) (msg : string) : error := semError blam msg.

Definition setAddr (c : AttrChange) (a : option TCPAddr) : AttrChange :=
  {| AddrBlame := AddrBlame c; Addr := a;
     DbnameInBlame := DbnameInBlame c; DbnameIn := DbnameIn c;
     DbnameRewrittenBlame := DbnameRewrittenBlame c;
     DbnameRewritten := DbnameRewritten c;
     LockBlame := LockBlame c; Lock := Lock c |}.

Definition setAddrBlame (c : AttrChange) (b : option Blamer) : AttrChange :=
  {| AddrBlame := b; Addr := Addr c;
     DbnameInBlame := DbnameInBlame c; DbnameIn := DbnameIn c;
     DbnameRewrittenBlame := DbnameRewrittenBlame c;
     DbnameRewritten := DbnameRewritten c;
     LockBlame := LockBlame c; Lock := Lock c |}.

Definition setDbnameIn (c : AttrChange) (v : string) (b : option Blamer)
  : AttrChange :=
  {| AddrBlame := AddrBlame c; Addr := Addr c;
     DbnameInBlame := b; DbnameIn := v;
     DbnameRewrittenBlame := DbnameRewrittenBlame c;
     DbnameRewritten := DbnameRewritten c;
     LockBlame := LockBlame c; Lock := Lock c |}.

Definition setDbnameRewritten (c : AttrChange) (v : string) (b : option Blamer)
  : AttrChange :=
  {| AddrBlame := AddrBlame c; Addr := Addr c;
     DbnameInBlame := DbnameInBlame c; DbnameIn := DbnameIn c;
     DbnameRewrittenBlame := b; DbnameRewritten := v;
     LockBlame := LockBlame c; Lock := Lock c |}.

Definition setLock (c : AttrChange) (v : bool) : AttrChange :=
  {| AddrBlame := AddrBlame c; Addr := Addr c;
     DbnameInBlame := DbnameInBlame c; DbnameIn := DbnameIn c;
     DbnameRewrittenBlame := DbnameRewrittenBlame c;
     DbnameRewritten := DbnameRewritten c;
     LockBlame := LockBlame c; Lock := v |}.

Definition setLockBlame (c : AttrChange) (b : option Blamer) : AttrChange :=
  {| AddrBlame := AddrBlame c; Addr := Addr c;
     DbnameInBlame := DbnameInBlame c; DbnameIn := DbnameIn c;
     DbnameRewrittenBlame := DbnameRewrittenBlame c;
     DbnameRewritten := DbnameRewritten c;
     LockBlame := b; Lock := Lock c |}.

(** The text of the error for an unrecognized [lock] literal ([%v] of a
    string is the string). *)
Definition lockLiteralMsg (lexeme : string) : string :=
  "Could not recognize lock literal " ++ lexeme ++ ", choose 'true' or 'false'".

Definition badTargetMsg (expected : string) (spec : TargetSpecSyntax) : string :=
  "Incorrect target type: expected " ++ expected ++ ", got " ++ typeName spec.

Section Sem.

Variable lib : GoLib.

(** The order in which one [range] over a property map visits its entries. *)
Variable visit : Props -> list (Token * Token).

(** One turn of the [for name, value := range props] loop of
    [initAttrChange], from the [change] reached so far.  [Returns (c, None)]
    goes on with the next entry, [Returns (c, Some err)] is [return err]. *)
Definition rangeBody (change : AttrChange) (name value : Token)
  : outcome (AttrChange * option error) :=
  if (Lexeme name =? "addr")%string then
    if (String.length (Lexeme value) <? 2)%nat then Panics SliceBoundsOutOfRange
    else
      let ipText :=
        substring 1 (String.length (Lexeme value) - 2) (Lexeme value) in
      match hostPortToAddr lib "tcp" ipText with
      | inr err => Returns (setAddr change None, Some err)
      | inl a =>
          Returns (setAddrBlame (setAddr change (Some a))
                     (Some (BlameToken value)), None)
      end
  else if (Lexeme name =? "dbnameIn")%string then
    Returns (setDbnameIn change (Lexeme value) (Some (BlameToken value)), None)
  else if (Lexeme name =? "dbnameRewritten")%string then
    Returns (setDbnameRewritten change (Lexeme value)
               (Some (BlameToken value)), None)
  else if (Lexeme name =? "lock")%string then
    if (Lexeme value =? "'true'")%string then
      Returns (setLockBlame (setLock change true)
                 (Some (BlameToken value)), None)
    else if (Lexeme value =? "'false'")%string then
      Returns (setLockBlame (setLock change false)
                 (Some (BlameToken value)), None)
    else
      Returns (change, Some (errorString (lockLiteralMsg (Lexeme value))))
  else Panics (UnhandleableToken (Lexeme name)).

Fixpoint rangeLoop (change : AttrChange) (entries : list (Token * Token))
  : outcome (AttrChange * option error) :=
  match entries with
  | [] => Returns (change, None)
  | (name, value) :: rest =>
      match rangeBody change name value with
      | Returns (change', None) => rangeLoop change' rest
      | stop => stop
      end
  end.

(** [initAttrChange] mutates [*change]; the change it leaves behind is
    returned next to the error. *)
Definition initAttrChange (change : AttrChange) (props : Props)
  : outcome (AttrChange * option error) :=
  rangeLoop change (visit props).

Definition newPatchDirective (What Ocn : Token) (ocnInt : Z)
  (PatchProps : Props) : outcome (option PatchDirective * option error) :=
  let ocnSpec := TargetOcnSpecSyntax What Ocn in
  let tOcn :=
    {| ocnBlamer := BlameSpec ocnSpec;
       ocnTargetOne := {| oneBlamer := BlameSpec ocnSpec; What := Lexeme Ocn |};
       Ocn := ocnInt |} in
  match initAttrChange zeroAttrChange PatchProps with
  | Panics why => Panics why
  | Returns (_, Some err) => Returns (None, Some err)
  | Returns (change, None) =>
      Returns (Some {| patchBlamer := BlameAction (PatchActionSyntax PatchProps);
                       patchTargetOcn := tOcn;
                       patchChange := change |}, None)
  end.

Definition analyzePatch (req : RequestSyntax) (PatchProps : Props)
  : outcome (option PatchDirective * option error) :=
  match Spec req with
  | TargetOcnSpecSyntax what ocn =>
      match ParseUint lib (Lexeme ocn) 10 64 with
      | inr err =>
          Returns (None, Some (semErrf (BlameToken ocn)
                                 ("Could not parse OCN, " ++ err)))
      | inl ocnInt => newPatchDirective what ocn ocnInt PatchProps
      end
  | _ =>
      Returns (None, Some (ErrBadTarget
                             (semErrf (BlameSpec (Spec req))
                                (badTargetMsg "TargetOcnSpecSyntax" (Spec req)))))
  end.

Definition newCreateDirective (What : Token) (CreateProps : Props)
  : outcome (option CreateDirective * option error) :=
  let spec := TargetOneSpecSyntax What in
  let tOne := {| oneBlamer := BlameSpec spec; What := Lexeme What |} in
  match initAttrChange zeroAttrChange CreateProps with
  | Panics why => Panics why
  | Returns (_, Some err) => Returns (None, Some err)
  | Returns (change, None) =>
      Returns (Some {| createBlamer := BlameAction (CreateActionSyntax CreateProps);
                       createTargetOne := tOne;
                       createChange := change |}, None)
  end.

Definition analyzeCreate (req : RequestSyntax) (CreateProps : Props)
  : outcome (option CreateDirective * option error) :=
  match Spec req with
  | TargetOneSpecSyntax what => newCreateDirective what CreateProps
  | _ =>
      Returns (None, Some (ErrBadTarget
                             (semErrf (BlameSpec (Spec req))
                                (badTargetMsg "TargetOcnSpecSyntax" (Spec req)))))
  end.

Definition analyzeGet (req : RequestSyntax)
  : outcome (option GetDirective * option error) :=
  match Spec req with
  | TargetAllSpecSyntax _ =>
      Returns (Some {| getTarget :=
                         TargetOfAll {| allBlamer := BlameSpec (Spec req) |} |},
               None)
  | TargetOneSpecSyntax what =>
      Returns (Some {| getTarget :=
                         TargetOfOne {| oneBlamer := BlameToken what;
                                        What := Lexeme what |} |},
               None)
  | TargetOcnSpecSyntax _ _ =>
      Returns (None, Some (ErrBadTarget
                             (semErrf (BlameSpec (Spec req))
                                (badTargetMsg
                                   "TargetOneSpecSyntax or TargetAllSpecSyntax"
                                   (Spec req)))))
  end.

(** Storing the pointer a helper returned in the interface [Directive]. *)
Definition asDirective {D : Type} (wrap : option D -> Directive)
  (r : outcome (option D * option error)) : outcome (Directive * option error) :=
  match r with
  | Returns (d, err) => Returns (wrap d, err)
  | Panics why => Panics why
  end.

Definition Analyze (req : RequestSyntax) : outcome (Directive * option error) :=
  match Action req with
  | PatchActionSyntax props => asDirective ptrPatch (analyzePatch req props)
  | CreateActionSyntax props => asDirective ptrCreate (analyzeCreate req props)
  | GetActionSyntax => asDirective ptrGet (analyzeGet req)
  | DeleteActionSyntax => Returns (nilDirective, None)
  end.

End Sem.

(** ** A reference library

    An executable instance of [GoLib], used to run the analyzer on concrete
    requests.  It follows the documented behaviour of the Go functions on the
    inputs used below: [strconv.ParseUint] in base 10, [net.SplitHostPort]
    (split on the last colon, brackets around an IPv6 host), [net.ParseIP] on
    dotted-quad IPv4 text (IPv6 text is not covered by this instance) and
    [net.LookupPort] over a three-line services table. *)

Definition dquote : string := String (ascii_of_nat 34) EmptyString.

Fixpoint allDigits (s : string) : bool :=
  match s with
  | EmptyString => true
  | String c s' => isDigit c && allDigits s'
  end.

(** The number a string of decimal digits denotes, continuing from [acc]. *)
Fixpoint decimalFrom (acc : Z) (s : string) : Z :=
  match s with
  | EmptyString => acc
  | String c s' => decimalFrom (acc * 10 + digitVal c) s'
  end.

Definition decimalValue (s : string) : Z := decimalFrom 0 s.

Definition refParseUint (s : string) (base bitSize : Z) : Z + string :=
  let ctx := "strconv.ParseUint: parsing " ++ dquote ++ s ++ dquote in
  if negb (base =? 10) then inr (ctx ++ ": invalid base")
  else if (s =? "")%string || negb (allDigits s)
  then inr (ctx ++ ": invalid syntax")
  else if decimalValue s <? 2 ^ bitSize then inl (decimalValue s)
  else inr (ctx ++ ": value out of range").

Fixpoint lastIndex (c : ascii) (s : string) (i : nat) : option nat :=
  match s with
  | EmptyString => None
  | String c' s' =>
      match lastIndex c s' (S i) with
      | Some j => Some j
      | None => if Ascii.eqb c c' then Some i else None
      end
  end.

Definition lastByteIs (c : ascii) (s : string) : bool :=
  match get (String.length s - 1) s with
  | Some c' => Ascii.eqb c c'
  | None => false
  end.

Definition refSplitHostPort (hostport : string) : (string * string) + string :=
  match lastIndex ":" hostport 0 with
  | None => inr ("missing port in address " ++ hostport)
  | Some i =>
      let host := substring 0 i hostport in
      let port := strFrom (S i) hostport in
      match host with
      | String "[" _ =>
          if lastByteIs "]" host
          then inl (substring 1 (String.length host - 2) host, port)
          else inr ("too many colons in address " ++ hostport)
      | _ =>
          match lastIndex ":" host 0 with
          | Some _ => inr ("too many colons in address " ++ hostport)
          | None => inl (host, port)
          end
      end
  end.

(** [parseIPv4]: [j] octets read so far (held in [p]), [todo] still to read,
    the next one starting at offset [i]. *)
Fixpoint parseIPv4Octets (todo : nat) (j : nat) (s : string) (i : nat)
  (p : list Z) : option (list Z) :=
  match todo with
  | O => if (i =? String.length s)%nat then Some p else None
  | S todo' =>
      if (String.length s <=? i)%nat then None
      else
        let dot :=
          match j with
          | O => Some i
          | S _ =>
              match get i s with
              | Some "."%char => Some (S i)
              | _ => None
              end
          end in
        match dot with
        | None => None
        | Some i1 =>
            let '(n, i2, ok) := dtoi s i1 in
            if negb ok || (n >? 0xFF) then None
            else parseIPv4Octets todo' (S j) s (Z.to_nat i2) (p ++ [n])%list
        end
  end.

Definition v4InV6Prefix : list Z := [0; 0; 0; 0; 0; 0; 0; 0; 0; 0; 0xff; 0xff].

Definition refParseIP (s : string) : option IP :=
  match parseIPv4Octets 4 0 s 0 [] with
  | Some p => Some (v4InV6Prefix ++ p)%list
  | None => None
  end.

Definition refLookupPort (network service : string) : Z + string :=
  if negb (network =? "tcp")%string
  then inr ("unknown network " ++ network)
  else if (service =? "http")%string then inl 80
  else if (service =? "https")%string then inl 443
  else if (service =? "postgresql")%string then inl 5432
  else inr ("unknown port " ++ network ++ "/" ++ service).

Definition refLib : GoLib :=
  {| SplitHostPort := refSplitHostPort;
     ParseIP := refParseIP;
     LookupPort := refLookupPort;
     ParseUint := refParseUint |}.

(** Two visiting orders of a property map: as stored, and reversed. *)
Definition inOrder (props : Props) : list (Token * Token) := props.

Definition reversed (props : Props) : list (Token * Token) := rev props.

Definition tok (lexeme : string) (line col : Z) : Token :=
  {| Lexeme := lexeme; Pos := {| Line := line; Col := col |} |}.

(** ** Vocabulary of the properties *)

(** [contains sub s]: [sub] occurs in [s]. *)
Fixpoint contains (sub s : string) : bool :=
  prefix sub s ||
  match s with
  | EmptyString => false
  | String _ s' => contains sub s'
  end.

(** The message an error shows, without the position [semErrf] puts in
    front of it. *)
Fixpoint message (e : error) : string :=
  match e with
  | errorString text => text
  | AddrError err addr => err ++ " " ++ addr
  | libError text => text
  | semError _ msg => msg
  | ErrBadTarget e' => message e'
  end.

(** An error is anchored when it was built by [semErrf], which is the one
    place where a position enters an error. *)
Fixpoint anchored (e : error) : bool :=
  match e with
  | semError _ _ => true
  | ErrBadTarget e' => anchored e'
  | _ => false
  end.

Definition isErrBadTarget (e : error) : bool :=
  match e with
  | ErrBadTarget _ => true
  | _ => false
  end.

(** The interface value carries no directive struct. *)
Definition noDirective (d : Directive) : bool :=
  match d with
  | nilDirective | ptrPatch None | ptrCreate None | ptrGet None
  | ptrDelete None => true
  | _ => false
  end.

(** Strict decimal parsing as the specification words it: every byte a
    digit, at least one of them, and the number below the bound [big]. *)
Definition strictDecimal (s : string) : option Z :=
  if negb (s =? "")%string && allDigits s && (decimalValue s <? big)
  then Some (decimalValue s)
  else None.

(** The port the specification asks for: the strict decimal reading of the
    token, else what the service registry says for the network. *)
Definition portCandidate (lib : GoLib) (network port : string) : Z + string :=
  match strictDecimal port with
  | Some p => inl p
  | None => LookupPort lib network port
  end.

(** The IP part of the endpoint: absent for an empty host, the parsed
    literal otherwise; [None] when the host is not an IP literal. *)
Definition hostAddr (lib : GoLib) (host : string) : option (option IP) :=
  if (host =? "")%string then Some None
  else option_map Some (ParseIP lib host).

(** The range check on a candidate port. *)
Definition checkedPort (addr : option IP) (port : string) (p : Z)
  : TCPAddr + error :=
  if (p <? 0) || (p >? 0xFFFF)
  then inr (AddrError "invalid port" port)
  else inl {| tcpIP := addr; tcpPort := p |}.

(** What the specification says of the port of [hostport], whose host is
    settled as [addr] and whose port token is [port]. *)
Definition portResolution (lib : GoLib) (network hostport port : string)
  (addr : option IP) : Prop :=
  let result := hostPortToAddr lib network hostport in
  (* strict decimal parsing comes first and, when it succeeds, decides alone *)
  (forall p, strictDecimal port = Some p -> result = checkedPort addr port p) /\
  (* the service registry is asked when it fails *)
  (strictDecimal port = None ->
   forall p, LookupPort lib network port = inl p ->
             result = checkedPort addr port p) /\
  (* neither succeeds: the lookup error is returned *)
  (strictDecimal port = None ->
   forall err, LookupPort lib network port = inr err ->
               result = inr (libError err)) /\
  (* a candidate in range is the port of the endpoint *)
  (forall p, portCandidate lib network port = inl p -> 0 <= p <= 65535 ->
             result = inl {| tcpIP := addr; tcpPort := p |}) /\
  (* a candidate out of range is a port-range error *)
  (forall p, portCandidate lib network port = inl p -> ~ 0 <= p <= 65535 ->
             result = inr (AddrError "invalid port" port)) /\
  (* every endpoint returned has its port in range *)
  (forall a, result = inl a -> 0 <= tcpPort a <= 65535).

Definition propsOf (req : RequestSyntax) : Props :=
  match Action req with
  | PatchActionSyntax props | CreateActionSyntax props => props
  | _ => []
  end.

Definition fieldName (entry : Token * Token) : string := Lexeme (fst entry).

(** The builder accepts an entry: its turn of the loop goes on to the next
    one. *)
Definition accepted (lib : GoLib) (entry : Token * Token) : bool :=
  match rangeBody lib zeroAttrChange (fst entry) (snd entry) with
  | Returns (_, None) => true
  | _ => false
  end.

(** The shapes the claims call illegal: Create on all or on a versioned
    target, Get on a versioned target. *)
Definition illegalShape (req : RequestSyntax) : bool :=
  match Action req, Spec req with
  | CreateActionSyntax _, TargetAllSpecSyntax _
  | CreateActionSyntax _, TargetOcnSpecSyntax _ _
  | GetActionSyntax, TargetOcnSpecSyntax _ _ => true
  | _, _ => false
  end.

(** What one turn of the loop does to the change, whatever the change is:
    the update it applies and the error it returns with. *)
Definition effect (lib : GoLib) (name value : Token)
  : outcome ((AttrChange -> AttrChange) * option error) :=
  if (Lexeme name =? "addr")%string then
    if (String.length (Lexeme value) <? 2)%nat then Panics SliceBoundsOutOfRange
    else
      match hostPortToAddr lib "tcp"
              (substring 1 (String.length (Lexeme value) - 2) (Lexeme value))
      with
      | inr err => Returns (fun c => setAddr c None, Some err)
      | inl a =>
          Returns (fun c => setAddrBlame (setAddr c (Some a))
                              (Some (BlameToken value)), None)
      end
  else if (Lexeme name =? "dbnameIn")%string then
    Returns (fun c => setDbnameIn c (Lexeme value) (Some (BlameToken value)),
             None)
  else if (Lexeme name =? "dbnameRewritten")%string then
    Returns (fun c => setDbnameRewritten c (Lexeme value)
                        (Some (BlameToken value)), None)
  else if (Lexeme name =? "lock")%string then
    if (Lexeme value =? "'true'")%string then
      Returns (fun c => setLockBlame (setLock c true) (Some (BlameToken value)),
               None)
    else if (Lexeme value =? "'false'")%string then
      Returns (fun c => setLockBlame (setLock c false) (Some (BlameToken value)),
               None)
    else
      Returns (fun c => c, Some (errorString (lockLiteralMsg (Lexeme value))))
  else Panics (UnhandleableToken (Lexeme name)).

Definition isLock (entry : Token * Token) : bool :=
  (fieldName entry =? "lock")%string.

(** How many entries of a mapping name the field [lock]. *)
Definition lockCount (entries : list (Token * Token)) : nat :=
  List.length (filter isLock entries).

(** A visiting order is an order of the entries of the map. *)
Definition validOrder (visit : Props -> list (Token * Token)) : Prop :=
  forall props, Permutation (visit props) props.

(** The boundary behaviour of the field [lock] on a mapping: for each entry
    naming [lock], the builder returns, with [Lock] set as the literal says
    or with an error that shows the literal. *)
Definition lockBoundary (lib : GoLib) (visit : Props -> list (Token * Token))
  (change : AttrChange) (props : Props) : Prop :=
  forall name value : Token,
    In (name, value) props -> Lexeme name = "lock" ->
    match initAttrChange lib visit change props with
    | Returns (c, err) =>
        if (Lexeme value =? "'true'")%string then err = None /\ Lock c = true
        else if (Lexeme value =? "'false'")%string
        then err = None /\ Lock c = false
        else exists e, err = Some e /\
                       contains (Lexeme value) (message e) = true
    | Panics _ => False
    end.

(** Two analyses of a request, each with its own visiting order, that both
    return a directive return the same one. *)
Definition deterministicOn (lib : GoLib)
  (visit1 visit2 : Props -> list (Token * Token)) (req : RequestSyntax) : Prop :=
  forall d1 d2 : Directive,
    Analyze lib visit1 req = Returns (d1, None) ->
    Analyze lib visit2 req = Returns (d2, None) ->
    d1 = d2.

(** ** Sample requests *)

(** [patch fdr@7 addr='10.0.0.5:5432'], the end-to-end scenario of the
    specification. *)
Definition scenarioPatch : RequestSyntax :=
  {| Spec := TargetOcnSpecSyntax (tok "fdr" 1 7) (tok "7" 1 11);
     Action := PatchActionSyntax
                 [(tok "addr" 1 14, tok "'10.0.0.5:5432'" 1 19)] |}.

(** [patch fdr@7 lock='yes']. *)
Definition lockYesPatch : RequestSyntax :=
  {| Spec := TargetOcnSpecSyntax (tok "fdr" 1 7) (tok "7" 1 11);
     Action := PatchActionSyntax [(tok "lock" 1 14, tok "'yes'" 1 19)] |}.

(** [create fdr@7 ...], a versioned target given to Create. *)
Definition createOnOcn : RequestSyntax :=
  {| Spec := TargetOcnSpecSyntax (tok "fdr" 1 8) (tok "7" 1 12);
     Action := CreateActionSyntax
                 [(tok "addr" 1 15, tok "'10.0.0.5:5432'" 1 20)] |}.

(** A mapping with a malformed address next to an unrecognized lock
    literal. *)
Definition badAddrAndLock : Props :=
  [(tok "addr" 1 14, tok "'x'" 1 19); (tok "lock" 1 24, tok "'yes'" 1 29)].

(** A mapping in which two tokens name the field [lock]. *)
Definition twoLocks : Props :=
  [(tok "lock" 1 14, tok "'true'" 1 19); (tok "lock" 1 27, tok "'false'" 1 32)].

Definition twoLocksPatch : RequestSyntax :=
  {| Spec := TargetOcnSpecSyntax (tok "fdr" 1 7) (tok "7" 1 11);
     Action := PatchActionSyntax twoLocks |}.

(** A mapping that sets the address by service name and the lock. *)
Definition addrAndLock : Props :=
  [(tok "addr" 1 14, tok "':http'" 1 19); (tok "lock" 1 27, tok "'true'" 1 32)].

(** [patch fdr@7 addr=':http' lock='true']. *)
Definition addrAndLockPatch : RequestSyntax :=
  {| Spec := TargetOcnSpecSyntax (tok "fdr" 1 7) (tok "7" 1 11);
     Action := PatchActionSyntax addrAndLock |}.

(** The directive the analyzer gives for [addrAndLockPatch]. *)
Definition addrAndLockDirective : Directive :=
  ptrPatch
    (Some
       {| patchBlamer := BlameAction (PatchActionSyntax addrAndLock);
          patchTargetOcn :=
            {| ocnBlamer := BlameSpec (Spec addrAndLockPatch);
               ocnTargetOne :=
                 {| oneBlamer := BlameSpec (Spec addrAndLockPatch);
                    What := "7" |};
               Ocn := 7 |};
          patchChange :=
            {| AddrBlame := Some (BlameToken (tok "':http'" 1 19));
               Addr := Some {| tcpIP := None; tcpPort := 80 |};
               DbnameInBlame := None; DbnameIn := "";
               DbnameRewrittenBlame := None; DbnameRewritten := "";
               LockBlame := Some (BlameToken (tok "'true'" 1 32));
               Lock := true |} |}).

(** ** More vocabulary: the builder field by field *)

(** No digit is next: the string is empty or starts with another byte. *)
Definition noDigitAhead (s : string) : bool :=
  match s with
  | EmptyString => true
  | String c _ => negb (isDigit c)
  end.

(** The field names [initAttrChange] has a case for. *)
Definition knownField (lexeme : string) : bool :=
  (lexeme =? "addr")%string || (lexeme =? "dbnameIn")%string ||
  (lexeme =? "dbnameRewritten")%string || (lexeme =? "lock")%string.

(** An entry the loop body can handle without a panic: a known field, and
    for [addr] a value long enough to have its first and last byte cut. *)
Definition wellFormedEntry (entry : Token * Token) : bool :=
  knownField (fieldName entry) &&
  (negb (fieldName entry =? "addr")%string ||
   (2 <=? String.length (Lexeme (snd entry)))%nat).

(** The two struct fields an attribute owns: its marker and its value. *)
Inductive slot : Type :=
| slotAddr (blame : option Blamer) (a : option TCPAddr)
| slotText (blame : option Blamer) (text : string)
| slotFlag (blame : option Blamer) (flag : bool)
| noSlot.

Definition slotOf (field : string) (c : AttrChange) : slot :=
  if (field =? "addr")%string then slotAddr (AddrBlame c) (Addr c)
  else if (field =? "dbnameIn")%string
  then slotText (DbnameInBlame c) (DbnameIn c)
  else if (field =? "dbnameRewritten")%string
  then slotText (DbnameRewrittenBlame c) (DbnameRewritten c)
  else if (field =? "lock")%string then slotFlag (LockBlame c) (Lock c)
  else noSlot.

(** A value is set only under its marker: where the marker is [nil] the
    value is the zero value. *)
Definition markersCover (c : AttrChange) : Prop :=
  (AddrBlame c = None -> Addr c = None) /\
  (DbnameInBlame c = None -> DbnameIn c = "") /\
  (DbnameRewrittenBlame c = None -> DbnameRewritten c = "") /\
  (LockBlame c = None -> Lock c = false).

(** The directive stored in the interface is the one of the action; a
    Delete, which is not analyzed, gives the [nil] interface. *)
Definition answers (a : ActionSyntax) (d : Directive) : bool :=
  match a, d with
  | PatchActionSyntax _, ptrPatch (Some _)
  | CreateActionSyntax _, ptrCreate (Some _)
  | GetActionSyntax, ptrGet (Some _)
  | DeleteActionSyntax, nilDirective => true
  | _, _ => false
  end.

(** ** tools/toydog.go *)

(** [map[string]string]: the bindings of the map, one per key. *)
Definition Table : Type := list (string * string).

(** [m[k]]: the value bound to [k], the zero value when there is none. *)
Fixpoint mapIndex (m : Table) (k : string) : string :=
  match m with
  | [] => ""
  | (k', v) :: m' => if (k' =? k)%string then v else mapIndex m' k
  end.

(** [m[k] = v]. *)
Definition mapAssign (m : Table) (k v : string) : Table :=
  (k, v) :: filter (fun e => negb (fst e =? k)%string) m.

(** The mutex of the struct only serializes writers and is left out. *)
Record RoutingTable : Type := { table : Table }.

Definition NewRoutingTable : RoutingTable := {| table := [] |}.

Definition SetRoute (r : RoutingTable) (dbname addr : string) : RoutingTable :=
  {| table := mapAssign (table r) dbname addr |}.

Definition Route (r : RoutingTable) (dbname : string) : string :=
  mapIndex (table r) dbname.

(** [autoListen] and [autoDial] over the listening and dialing functions of
    the [net] package; [contains] is [strings.Contains]. *)
Definition autoListen {L : Type} (Listen : string -> string -> L)
  (place : string) : L :=
  if contains "/" place then Listen "unix" place else Listen "tcp" place.

Definition autoDial {C : Type} (Dial : string -> string -> C)
  (place : string) : C :=
  if contains "/" place then Dial "unix" place else Dial "tcp" place.

(** [QueryValue] and its one implementation [QueryStr]; [Value] returns the
    string itself as an [interface{}]. *)
Inductive QueryValue : Type := QueryStr (s : string).

Inductive ifaceValue : Type := strValue (s : string).

Definition Value (q : QueryValue) : ifaceValue :=
  match q with
  | QueryStr s => strValue s
  end.

(** The messages [SendDataSet] builds with the constructors of the
    [femebe] package, which are not part of these sources: a message is kept
    as the constructor call that made it. *)
Inductive FieldType : Type := STRING.

Inductive Message : Type :=
| NewRowDescription (fields : list (string * FieldType))
| NewDataRow (cols : list ifaceValue)
| NewCommandComplete (tag : string).

(** [%v] on an [int] that is a length. *)
Definition showInt (n : nat) : string := NilEmpty.string_of_uint (Nat.to_uint n).

(** The loop over the rows.  A stream is the list of the messages sent on
    it so far; the second component is the value of a [panic]. *)
Fixpoint sendRows (rowLen : nat) (rows : list (list QueryValue))
  (stream : list Message) : list Message * option string :=
  match rows with
  | [] => (stream, None)
  | row :: rows' =>
      if negb (List.length row =? rowLen)%nat then (stream, Some "oh snap!")
      else sendRows rowLen rows' (stream ++ [NewDataRow (map Value row)])%list
  end.

Definition SendDataSet (stream : list Message) (colnames : list string)
  (rows : list (list QueryValue)) : list Message * option string :=
  let rowLen := List.length colnames in
  let fieldDescs := map (fun name => (name, STRING)) colnames in
  let rowDesc := NewRowDescription fieldDescs in
  match sendRows rowLen rows (stream ++ [rowDesc])%list with
  | (stream', Some why) => (stream', Some why)
  | (stream', None) =>
      ((stream' ++ [NewCommandComplete ("SELECT " ++ showInt rowLen)])%list,
       None)
  end.

(** ** Strings *)

Lemma substring_all (s : string) : substring 0 (String.length s) s = s.
Proof.
  induction s as [|c s IH]; simpl; [reflexivity | now rewrite IH].
Qed.

Lemma strFrom_0 (s : string) : strFrom 0 s = s.
Proof.
  unfold strFrom. rewrite Nat.sub_0_r. apply substring_all.
Qed.

Lemma prefix_app (s t : string) : prefix s (s ++ t) = true.
Proof.
  induction s as [|c s IH]; simpl.
  - now destruct t.
  - destruct (ascii_dec c c); [exact IH | congruence].
Qed.

Lemma contains_prefix (sub s : string) :
  prefix sub s = true -> contains sub s = true.
Proof.
  intros H. destruct s; cbn [contains]; rewrite H; reflexivity.
Qed.

Lemma contains_app (sub a b : string) : contains sub (a ++ sub ++ b) = true.
Proof.
  induction a as [|c a IH].
  - change (contains sub (sub ++ b) = true). apply contains_prefix, prefix_app.
  - simpl. rewrite IH. apply orb_true_r.
Qed.

(** ** dtoi *)

Lemma isDigit_digitVal (c : ascii) : isDigit c = true -> 0 <= digitVal c <= 9.
Proof.
  unfold isDigit, digitVal. intros H.
  apply andb_true_iff in H as [H1 H2].
  apply Z.leb_le in H1. apply Z.leb_le in H2. lia.
Qed.

Lemma decimalFrom_ge (s : string) :
  forall acc, 0 <= acc -> allDigits s = true -> acc <= decimalFrom acc s.
Proof.
  induction s as [|c s IH]; simpl; intros acc Hacc Hd; [lia|].
  apply andb_true_iff in Hd as [Hc Hs].
  pose proof (isDigit_digitVal c Hc).
  specialize (IH (acc * 10 + digitVal c) ltac:(lia) Hs). lia.
Qed.

(** On digits only, the loop reads everything when the number stays below
    [big] ... *)
Lemma dtoiLoop_digits_small (rest : string) :
  forall n i, 0 <= n -> allDigits rest = true -> decimalFrom n rest < big ->
    dtoiLoop rest n i = inr (decimalFrom n rest, i + strlen rest).
Proof.
  induction rest as [|c rest IH]; simpl; intros n i Hn Hd Hv.
  - unfold strlen. simpl. now rewrite Z.add_0_r.
  - apply andb_true_iff in Hd as [Hc Hs]. rewrite Hc.
    pose proof (isDigit_digitVal c Hc) as Hc'.
    pose proof (decimalFrom_ge rest (n * 10 + digitVal c) ltac:(lia) Hs) as Hge.
    destruct (n * 10 + digitVal c >=? big) eqn:E.
    + apply Z.geb_le in E. lia.
    + rewrite IH by (assumption || lia).
      f_equal. f_equal. unfold strlen. simpl String.length. lia.
Qed.

(** ... and gives up as soon as it reaches [big]. *)
Lemma dtoiLoop_digits_big (rest : string) :
  forall n i, 0 <= n < big -> allDigits rest = true ->
    big <= decimalFrom n rest -> exists j, dtoiLoop rest n i = inl j.
Proof.
  induction rest as [|c rest IH]; simpl; intros n i Hn Hd Hv; [lia|].
  apply andb_true_iff in Hd as [Hc Hs]. rewrite Hc.
  pose proof (isDigit_digitVal c Hc) as Hc'.
  destruct (n * 10 + digitVal c >=? big) eqn:E.
  - now exists i.
  - assert (n * 10 + digitVal c < big).
    { destruct (Z.geb_spec (n * 10 + digitVal c) big); [discriminate | lia]. }
    apply IH; [lia | assumption | assumption].
Qed.

(** When some byte is not a digit the loop stops before the end. *)
Lemma dtoiLoop_not_digits (rest : string) :
  forall n i, allDigits rest = false ->
    (exists j, dtoiLoop rest n i = inl j) \/
    (exists n' i', dtoiLoop rest n i = inr (n', i') /\ i' < i + strlen rest).
Proof.
  induction rest as [|c rest IH]; simpl; intros n i Hd; [discriminate|].
  unfold strlen. simpl String.length.
  destruct (isDigit c) eqn:Hc; simpl in Hd.
  - destruct (n * 10 + digitVal c >=? big).
    + left. now exists i.
    + destruct (IH (n * 10 + digitVal c) (i + 1) Hd) as [[j Hj]|(n' & i' & Hr & Hlt)].
      * left. now exists j.
      * right. exists n', i'. split; [assumption|].
        unfold strlen in Hlt. lia.
  - right. exists n, i. split; [reflexivity | lia].
Qed.

(** The loop never leaves the range of a 32-bit [int]: the accumulator it
    multiplies is below [big], so the next one is below [2 ^ 31] ... *)
Lemma dtoi_step_in_int32 (n : Z) (c : ascii) :
  0 <= n < big -> isDigit c = true -> 0 <= n * 10 + digitVal c < 2 ^ 31.
Proof.
  intros Hn Hc. pose proof (isDigit_digitVal c Hc). unfold big in Hn. lia.
Qed.

(** ... and the accumulator it returns is below [big] again. *)
Lemma dtoiLoop_bounded (rest : string) :
  forall n i n' i', 0 <= n < big -> dtoiLoop rest n i = inr (n', i') ->
    0 <= n' < big.
Proof.
  induction rest as [|c rest IH]; simpl; intros n i n' i' Hn H.
  - now inversion H; subst.
  - destruct (isDigit c) eqn:Hc.
    + pose proof (isDigit_digitVal c Hc) as Hc'.
      destruct (n * 10 + digitVal c >=? big) eqn:E; [discriminate|].
      apply (IH (n * 10 + digitVal c) (i + 1) n' i'); [|assumption].
      destruct (Z.geb_spec (n * 10 + digitVal c) big); [discriminate | lia].
    + now inversion H; subst.
Qed.

(** [dtoi] from offset 0 against strict decimal parsing: it accepts the whole
    token exactly when the token is a strict decimal, with that value. *)
Lemma dtoi_strictDecimal (s : string) :
  match strictDecimal s with
  | Some v => dtoi s 0 = (v, strlen s, true)
  | None => exists n i ok, dtoi s 0 = (n, i, ok) /\
                           (ok = false \/ i <> strlen s)
  end.
Proof.
  unfold strictDecimal, dtoi. rewrite strFrom_0.
  change (Z.of_nat 0) with 0.
  destruct (String.eqb_spec s "") as [->|Hne]; simpl negb; cbv iota.
  - simpl. exists 0, 0, false. auto.
  - destruct (allDigits s) eqn:Hd; simpl andb; cbv iota.
    + destruct (Z.ltb_spec (decimalValue s) big) as [Hlt|Hge].
      * unfold decimalValue in *.
        rewrite (dtoiLoop_digits_small s 0 0) by (assumption || lia).
        rewrite Z.add_0_l.
        destruct (Z.eqb_spec (strlen s) 0) as [E|E]; [|reflexivity].
        unfold strlen in E. destruct s; [congruence | simpl in E; lia].
      * destruct (dtoiLoop_digits_big s 0 0) as [j Hj];
          [unfold big; lia | assumption | exact Hge |].
        rewrite Hj. exists 0, j, false. auto.
    + destruct (dtoiLoop_not_digits s 0 0 Hd) as [[j Hj]|(n' & i' & Hr & Hlt)].
      * rewrite Hj. exists 0, j, false. auto.
      * rewrite Hr.
        destruct (i' =? 0).
        -- exists 0, i', false. auto.
        -- exists n', i', true. split; [reflexivity|]. right. lia.
Qed.

(** ** hostPortToAddr *)

Section NetHelpFacts.

Variable lib : GoLib.

(** The port token goes through [dtoi] exactly as [portCandidate] says. *)
Lemma dtoi_or_lookup (network port : string) :
  (let '(p, i, ok) := dtoi port 0 in
   if negb ok || negb (i =? strlen port)
   then LookupPort lib network port
   else inl p) = portCandidate lib network port.
Proof.
  unfold portCandidate.
  pose proof (dtoi_strictDecimal port) as H.
  destruct (strictDecimal port) as [v|].
  - rewrite H. rewrite Z.eqb_refl. reflexivity.
  - destruct H as (n & i & ok & -> & [-> | Hi]).
    + reflexivity.
    + apply Z.eqb_neq in Hi. rewrite Hi. now rewrite orb_true_r.
Qed.

(** Once the host is dealt with, the result is the range check on the port
    candidate. *)
Lemma hostPortToAddr_port (network hostport host port : string)
  (addr : option IP) :
  SplitHostPort lib hostport = inl (host, port) ->
  hostAddr lib host = Some addr ->
  hostPortToAddr lib network hostport =
    match portCandidate lib network port with
    | inr err => inr (libError err)
    | inl p => checkedPort addr port p
    end.
Proof.
  intros Hs Hh. unfold hostPortToAddr. rewrite Hs.
  assert ((if (host =? "")%string then inl None
           else match ParseIP lib host with
                | None => inr (errorString "Invalid IP passed")
                | Some ip => inl (Some ip)
                end) = (inl addr : option IP + error)) as ->.
  { unfold hostAddr in Hh. destruct (host =? "")%string.
    - now inversion Hh.
    - destruct (ParseIP lib host); simpl in Hh; now inversion Hh. }
  pose proof (dtoi_or_lookup network port) as Hp.
  destruct (dtoi port 0) as [[p i] ok]. rewrite Hp. reflexivity.
Qed.

Lemma checkedPort_inl (addr : option IP) (port : string) (p : Z) (a : TCPAddr) :
  checkedPort addr port p = inl a ->
  a = {| tcpIP := addr; tcpPort := p |} /\ 0 <= p <= 65535.
Proof.
  unfold checkedPort.
  destruct (Z.ltb_spec p 0) as [Hlt|Hge]; [discriminate|].
  destruct (p >? 0xFFFF) eqn:E; [discriminate|].
  simpl. intros Heq. inversion Heq. split; [reflexivity|].
  rewrite Z.gtb_ltb in E. apply Z.ltb_ge in E. lia.
Qed.

Lemma checkedPort_in_range (addr : option IP) (port : string) (p : Z) :
  0 <= p <= 65535 ->
  checkedPort addr port p = inl {| tcpIP := addr; tcpPort := p |}.
Proof.
  intros H. unfold checkedPort.
  destruct (Z.ltb_spec p 0); [lia|].
  destruct (p >? 0xFFFF) eqn:E; [|reflexivity].
  rewrite Z.gtb_ltb in E. apply Z.ltb_lt in E. lia.
Qed.

Lemma checkedPort_out_of_range (addr : option IP) (port : string) (p : Z) :
  ~ 0 <= p <= 65535 ->
  checkedPort addr port p = inr (AddrError "invalid port" port).
Proof.
  intros H. unfold checkedPort.
  destruct (Z.ltb_spec p 0); [reflexivity|].
  destruct (p >? 0xFFFF) eqn:E; [reflexivity|].
  rewrite Z.gtb_ltb in E. apply Z.ltb_ge in E. lia.
Qed.

(** Whatever the library does, an endpoint that comes back has its port in
    range. *)
Lemma hostPortToAddr_port_range (network hostport : string) (a : TCPAddr) :
  hostPortToAddr lib network hostport = inl a -> 0 <= tcpPort a <= 65535.
Proof.
  unfold hostPortToAddr.
  destruct (SplitHostPort lib hostport) as [[host port]|]; [|discriminate].
  destruct (if (host =? "")%string then _ else _) as [addr|]; [|discriminate].
  destruct (dtoi port 0) as [[p i] ok].
  destruct (if negb ok || negb (i =? strlen port) then _ else _) as [q|];
    [|discriminate].
  intros H. apply (checkedPort_inl addr port q a) in H as [-> Hq]. exact Hq.
Qed.

End NetHelpFacts.

(** C6.  An address whose host part is not empty and is not an IP literal
    is refused with the error "Invalid IP passed", whatever the port is and
    whatever the service registry or any other part of the library would
    answer: the host is only ever handed to [ParseIP]. *)
Theorem hostPortToAddr_rejects_hostname :
  forall (lib : GoLib) (network hostport host port : string),
    SplitHostPort lib hostport = inl (host, port) ->
    host <> "" ->
    ParseIP lib host = None ->
    hostPortToAddr lib network hostport = inr (errorString "Invalid IP passed").
Proof.
  intros lib network hostport host port Hs Hne Hip.
  unfold hostPortToAddr. rewrite Hs.
  destruct (String.eqb_spec host ""); [contradiction|].
  rewrite Hip. reflexivity.
Qed.

Lemma hostPortToAddr_rejects_hostname_witness :
  hostPortToAddr refLib "tcp" "db.example.com:5432"
  = inr (errorString "Invalid IP passed").
Proof.
  apply (hostPortToAddr_rejects_hostname refLib "tcp" "db.example.com:5432"
           "db.example.com" "5432").
  - reflexivity.
  - discriminate.
  - reflexivity.
Defined.

(** C7.  The port token is read by strict decimal parsing first (digits
    only, the whole token, below the bound [big]); when that fails the
    service registry is asked for the given network; when neither gives a
    port the call fails; a port outside [0, 65535] is the error "invalid
    port", and every endpoint returned has its port inside. *)
Theorem hostPortToAddr_port_resolution :
  forall (lib : GoLib) (network hostport host port : string) (addr : option IP),
    SplitHostPort lib hostport = inl (host, port) ->
    hostAddr lib host = Some addr ->
    portResolution lib network hostport port addr.
Proof.
  intros lib network hostport host port addr Hs Hh.
  pose proof (hostPortToAddr_port lib network hostport host port addr Hs Hh)
    as Hr.
  unfold portResolution. cbv zeta.
  split; [|split; [|split; [|split; [|split]]]].
  - intros p Hp. rewrite Hr. unfold portCandidate. now rewrite Hp.
  - intros Hn p Hp. rewrite Hr. unfold portCandidate. now rewrite Hn, Hp.
  - intros Hn err He. rewrite Hr. unfold portCandidate. now rewrite Hn, He.
  - intros p Hc Hp. rewrite Hr, Hc. now apply checkedPort_in_range.
  - intros p Hc Hp. rewrite Hr, Hc. now apply checkedPort_out_of_range.
  - apply hostPortToAddr_port_range.
Qed.

Lemma hostPortToAddr_port_resolution_witness :
  portResolution refLib "tcp" "10.0.0.5:5432" "5432"
    (Some [0; 0; 0; 0; 0; 0; 0; 0; 0; 0; 255; 255; 10; 0; 0; 5]).
Proof.
  apply (hostPortToAddr_port_resolution refLib "tcp" "10.0.0.5:5432"
           "10.0.0.5" "5432").
  - reflexivity.
  - reflexivity.
Defined.

(** C10.  With an empty host the IP literal check is skipped: whatever
    [ParseIP] would say, a port candidate in range gives an endpoint with no
    IP and that port. *)
Theorem hostPortToAddr_empty_host :
  forall (lib : GoLib) (network hostport port : string) (p : Z),
    SplitHostPort lib hostport = inl ("", port) ->
    portCandidate lib network port = inl p ->
    0 <= p <= 65535 ->
    hostPortToAddr lib network hostport = inl {| tcpIP := None; tcpPort := p |}.
Proof.
  intros lib network hostport port p Hs Hc Hp.
  rewrite (hostPortToAddr_port lib network hostport "" port None Hs eq_refl).
  rewrite Hc. now apply checkedPort_in_range.
Qed.

Lemma hostPortToAddr_empty_host_witness :
  hostPortToAddr refLib "tcp" ":5432" = inl {| tcpIP := None; tcpPort := 5432 |}.
Proof.
  apply (hostPortToAddr_empty_host refLib "tcp" ":5432" "5432" 5432).
  - reflexivity.
  - reflexivity.
  - lia.
Defined.

(** ** Analyze: target shapes *)

Section AnalyzeShapes.

Variable lib : GoLib.
Variable visit : Props -> list (Token * Token).

(** What a Patch that gets past the target and the version carries: the
    parsed version, and as name the lexeme of the version token. *)
Lemma analyzePatch_target (what ocn : Token) (props : Props) (n : Z)
  (d : PatchDirective) :
  ParseUint lib (Lexeme ocn) 10 64 = inl n ->
  analyzePatch lib visit
    {| Spec := TargetOcnSpecSyntax what ocn; Action := PatchActionSyntax props |}
    props = Returns (Some d, None) ->
  Ocn (patchTargetOcn d) = n /\
  What (ocnTargetOne (patchTargetOcn d)) = Lexeme ocn.
Proof.
  intros Hn. unfold analyzePatch. cbn [Spec]. rewrite Hn.
  unfold newPatchDirective.
  destruct (initAttrChange lib visit zeroAttrChange props) as [[c [e|]]|];
    intros H; inversion H; subst; simpl; auto.
Qed.

(** The builder never hands back a bad-target or an anchored error: its
    errors come from [hostPortToAddr] and from the lock literal. *)
Lemma hostPortToAddr_error_plain (network hostport : string) (e : error) :
  hostPortToAddr lib network hostport = inr e ->
  anchored e = false /\ isErrBadTarget e = false.
Proof.
  unfold hostPortToAddr.
  destruct (SplitHostPort lib hostport) as [[host port]|err];
    [|intros H; inversion H; auto].
  destruct (if (host =? "")%string then _ else _) as [addr|err] eqn:Ha.
  - destruct (dtoi port 0) as [[p0 i0] ok0].
    destruct (if negb ok0 || negb (i0 =? strlen port) then _ else _) as [q|err].
    + destruct ((q <? 0) || (q >? 0xFFFF)); intros H; inversion H; auto.
    + intros H; inversion H; auto.
  - intros H; inversion H; subst.
    destruct (host =? "")%string; [discriminate|].
    destruct (ParseIP lib host); inversion Ha; auto.
Qed.

Lemma rangeBody_error_plain (c c' : AttrChange) (name value : Token)
  (e : error) :
  rangeBody lib c name value = Returns (c', Some e) ->
  anchored e = false /\ isErrBadTarget e = false.
Proof.
  unfold rangeBody.
  destruct (Lexeme name =? "addr")%string.
  - destruct (String.length (Lexeme value) <? 2)%nat; [discriminate|].
    destruct (hostPortToAddr lib "tcp" _) as [a|err] eqn:E;
      intros H; inversion H; subst.
    eapply hostPortToAddr_error_plain; eassumption.
  - destruct (Lexeme name =? "dbnameIn")%string; [discriminate|].
    destruct (Lexeme name =? "dbnameRewritten")%string; [discriminate|].
    destruct (Lexeme name =? "lock")%string; [|discriminate].
    destruct (Lexeme value =? "'true'")%string; [discriminate|].
    destruct (Lexeme value =? "'false'")%string; [discriminate|].
    intros H; inversion H; auto.
Qed.

Lemma rangeLoop_error_plain (entries : list (Token * Token)) :
  forall (c c' : AttrChange) (e : error),
    rangeLoop lib c entries = Returns (c', Some e) ->
    anchored e = false /\ isErrBadTarget e = false.
Proof.
  induction entries as [|[name value] rest IH]; simpl; intros c c' e H.
  - discriminate.
  - destruct (rangeBody lib c name value) as [[c1 [e1|]]|] eqn:E.
    + inversion H; subst. eapply rangeBody_error_plain; eassumption.
    + eapply IH; eassumption.
    + discriminate.
Qed.

End AnalyzeShapes.

(** C1.  On the end-to-end scenario of the specification, the Patch of
    [fdr] at version [7], the analyzer returns a Patch directive whose
    version is the parsed integer 7 and whose name is the text of the version
    token, "7", not the name "fdr" of the target. *)
Theorem Analyze_patch_names_version_lexeme :
  exists d : PatchDirective,
    Analyze refLib inOrder scenarioPatch = Returns (ptrPatch (Some d), None) /\
    Ocn (patchTargetOcn d) = 7 /\
    What (ocnTargetOne (patchTargetOcn d)) = "7" /\
    What (ocnTargetOne (patchTargetOcn d)) <> "fdr".
Proof.
  eexists. split; [vm_compute; reflexivity|].
  simpl. repeat split. discriminate.
Qed.

(** C2.  Create on the whole table or on a versioned target, and Get on a
    versioned target, return no directive and a bad-target error anchored at
    the target specification. *)
Theorem Analyze_illegal_shape_bad_target :
  forall (lib : GoLib) (visit : Props -> list (Token * Token))
         (req : RequestSyntax),
    illegalShape req = true ->
    exists (d : Directive) (msg : string),
      Analyze lib visit req
      = Returns (d, Some (ErrBadTarget (semError (BlameSpec (Spec req)) msg))) /\
      noDirective d = true.
Proof.
  intros lib visit [spec action] H. unfold illegalShape in H. simpl in H.
  destruct action as [props|props| |]; destruct spec as [t|w|w o];
    try discriminate; unfold Analyze; simpl;
    eexists; eexists; (split; [reflexivity | reflexivity]).
Qed.

Lemma Analyze_illegal_shape_bad_target_witness :
  exists (d : Directive) (msg : string),
    Analyze refLib inOrder createOnOcn
    = Returns (d, Some (ErrBadTarget
                          (semError (BlameSpec (Spec createOnOcn)) msg))) /\
    noDirective d = true.
Proof.
  apply (Analyze_illegal_shape_bad_target refLib inOrder createOnOcn).
  reflexivity.
Defined.

(** C3.  A Delete request is not analyzed: for every target shape the
    analyzer returns the nil directive and no error. *)
Theorem Analyze_delete_returns_nil :
  forall (lib : GoLib) (visit : Props -> list (Token * Token))
         (spec : TargetSpecSyntax),
    Analyze lib visit {| Spec := spec; Action := DeleteActionSyntax |}
    = Returns (nilDirective, None).
Proof.
  intros lib visit spec. reflexivity.
Qed.

(** C4.  The error for an unrecognized lock literal reaches the caller of
    [Analyze] as the builder made it, with no position in it. *)
Theorem Analyze_lock_error_not_anchored :
  exists e : error,
    Analyze refLib inOrder lockYesPatch = Returns (ptrPatch None, Some e) /\
    e = errorString
          "Could not recognize lock literal 'yes', choose 'true' or 'false'" /\
    anchored e = false.
Proof.
  eexists. split; [vm_compute; reflexivity|]. split; reflexivity.
Qed.

(** C8.  A Create on the whole table is refused with a message that gives
    [TargetOcnSpecSyntax] as the expected shape; the shape Create takes,
    [TargetOneSpecSyntax], is not in the message. *)
Theorem Analyze_create_rejection_names_Ocn :
  forall (lib : GoLib) (visit : Props -> list (Token * Token))
         (props : Props) (t : Token),
    let spec := TargetAllSpecSyntax t in
    let msg := "Incorrect target type: expected TargetOcnSpecSyntax, got *dogconf.TargetAllSpecSyntax" in
    Analyze lib visit {| Spec := spec; Action := CreateActionSyntax props |}
    = Returns (ptrCreate None,
               Some (ErrBadTarget (semError (BlameSpec spec) msg))) /\
    contains "TargetOneSpecSyntax" msg = false.
Proof.
  intros lib visit props t. split; reflexivity.
Qed.

(** ** The attribute change builder *)

Section Builder.

Variable lib : GoLib.

Lemma rangeBody_effect (c : AttrChange) (name value : Token) :
  rangeBody lib c name value =
    match effect lib name value with
    | Returns (f, err) => Returns (f c, err)
    | Panics why => Panics why
    end.
Proof.
  unfold rangeBody, effect.
  repeat match goal with
         | |- context [if ?b then _ else _] => destruct b
         | |- context [match hostPortToAddr ?l ?n ?h with _ => _ end] =>
             destruct (hostPortToAddr l n h)
         end; reflexivity.
Qed.

Lemma rangeLoop_app (l1 l2 : list (Token * Token)) :
  forall c,
    rangeLoop lib c (l1 ++ l2) =
      match rangeLoop lib c l1 with
      | Returns (c', None) => rangeLoop lib c' l2
      | stop => stop
      end.
Proof.
  induction l1 as [|[name value] l1 IH]; simpl; intros c; [reflexivity|].
  destruct (rangeBody lib c name value) as [[c1 [e|]]|]; auto.
Qed.

(** An accepted entry of another field leaves [Lock] alone. *)
Lemma accepted_rangeBody (entry : Token * Token) (c : AttrChange) :
  accepted lib entry = true ->
  exists c', rangeBody lib c (fst entry) (snd entry) = Returns (c', None) /\
             (isLock entry = false -> Lock c' = Lock c).
Proof.
  destruct entry as [name value]. unfold accepted, isLock, fieldName.
  cbn [fst snd]. rewrite !rangeBody_effect. unfold effect.
  repeat match goal with
         | |- context [if ?b then _ else _] => destruct b
         | |- context [match hostPortToAddr ?l ?n ?h with _ => _ end] =>
             destruct (hostPortToAddr l n h)
         end; try discriminate; intros _; eexists; split;
    try reflexivity; intros; try reflexivity; discriminate.
Qed.

Lemma rangeLoop_accepted (l : list (Token * Token)) :
  forall c,
    (forall e, In e l -> accepted lib e = true /\ isLock e = false) ->
    exists c', rangeLoop lib c l = Returns (c', None) /\ Lock c' = Lock c.
Proof.
  induction l as [|[name value] l IH]; simpl; intros c H.
  - now exists c.
  - destruct (H (name, value) (or_introl eq_refl)) as [Ha Hl].
    destruct (accepted_rangeBody (name, value) c Ha) as (c1 & Hb & Hk).
    cbn [fst snd] in Hb. rewrite Hb.
    destruct (IH c1) as (c2 & Hr & Hk2); [intros e He; apply H; now right|].
    exists c2. split; [assumption|]. rewrite Hk2. now apply Hk.
Qed.

Lemma lockCount_app (l1 l2 : list (Token * Token)) :
  lockCount (l1 ++ l2) = (lockCount l1 + lockCount l2)%nat.
Proof.
  unfold lockCount. now rewrite filter_app, length_app.
Qed.

Lemma lockCount_perm (l l' : list (Token * Token)) :
  Permutation l l' -> lockCount l = lockCount l'.
Proof.
  unfold lockCount. induction 1; simpl.
  - reflexivity.
  - destruct (isLock x); simpl; congruence.
  - destruct (isLock x), (isLock y); reflexivity.
  - congruence.
Qed.

Lemma lockCount_0 (l : list (Token * Token)) :
  lockCount l = 0%nat -> forall e, In e l -> isLock e = false.
Proof.
  unfold lockCount. induction l as [|x l IH]; simpl; intros H e He.
  - contradiction.
  - destruct (isLock x) eqn:Hx; [discriminate|].
    destruct He as [<-|He]; [assumption | now apply IH].
Qed.

End Builder.

(** C5, as stated, fails: on a mapping with a malformed address next to
    [lock = 'yes'], visited address first, the error returned is the one of
    the address and does not show ['yes']; and on a mapping where two tokens
    name [lock], the one visited last decides. *)
Lemma lockBoundary_fails :
  ~ lockBoundary refLib inOrder zeroAttrChange badAddrAndLock /\
  ~ lockBoundary refLib inOrder zeroAttrChange twoLocks.
Proof.
  split; intros H.
  - specialize (H (tok "lock" 1 24) (tok "'yes'" 1 29)).
    vm_compute in H.
    destruct H as (e & He & Hc); [now right; left | reflexivity |].
    inversion He; subst. discriminate.
  - specialize (H (tok "lock" 1 14) (tok "'true'" 1 19)).
    vm_compute in H.
    destruct H as [_ Hl]; [now left | reflexivity | discriminate].
Qed.

(** C5, amended.  On a mapping that names [lock] once and whose other
    entries the builder accepts, in whatever order the entries are visited
    and from whatever change: ['true'] gives [Lock = true], ['false'] gives
    [Lock = false], and any other literal gives an error whose message shows
    the literal, quotes included. *)
Theorem initAttrChange_lock_boundary :
  forall (lib : GoLib) (visit : Props -> list (Token * Token))
         (change : AttrChange) (props : Props),
    Permutation (visit props) props ->
    lockCount props = 1%nat ->
    (forall e, In e props -> isLock e = false -> accepted lib e = true) ->
    lockBoundary lib visit change props.
Proof.
  intros lib visit change props Hperm Hone Hacc name value Hin Hname.
  unfold initAttrChange.
  assert (In (name, value) (visit props)) as Hin'
    by (eapply Permutation_in; [apply Permutation_sym|]; eassumption).
  destruct (in_split _ _ Hin') as (pre & post & Hsplit).
  assert (isLock (name, value) = true) as Hx
    by (unfold isLock, fieldName; cbn [fst]; rewrite Hname; reflexivity).
  assert (lockCount pre = 0%nat /\ lockCount post = 0%nat) as [Hpre Hpost].
  { pose proof (lockCount_perm _ _ Hperm) as Hc.
    rewrite Hsplit, lockCount_app, Hone in Hc.
    change ((name, value) :: post) with ([(name, value)] ++ post)%list in Hc.
    rewrite lockCount_app in Hc. unfold lockCount at 2 in Hc.
    simpl in Hc. rewrite Hx in Hc. simpl in Hc. lia. }
  assert (forall l, lockCount l = 0%nat -> (forall e, In e l -> In e (visit props)) ->
                    forall e, In e l -> accepted lib e = true /\ isLock e = false)
    as Hok.
  { intros l Hl Hsub e He. pose proof (lockCount_0 l Hl e He) as Hnl.
    split; [|assumption]. apply Hacc; [|assumption].
    eapply Permutation_in; [eassumption | now apply Hsub]. }
  rewrite Hsplit.
  destruct (rangeLoop_accepted lib pre change) as (c1 & Hr1 & _).
  { apply Hok; [assumption|]. intros e He. rewrite Hsplit.
    apply in_or_app. now left. }
  rewrite rangeLoop_app, Hr1. cbn [rangeLoop].
  assert (forall c, exists c', rangeLoop lib c post = Returns (c', None) /\
                               Lock c' = Lock c) as Hr2.
  { intros c. apply rangeLoop_accepted. apply Hok; [assumption|].
    intros e He. rewrite Hsplit. apply in_or_app. right. now right. }
  unfold rangeBody. rewrite Hname. cbn [String.eqb Ascii.eqb Bool.eqb].
  destruct (Lexeme value =? "'true'")%string.
  - destruct (Hr2 (setLockBlame (setLock c1 true) (Some (BlameToken value))))
      as (c2 & -> & Hl).
    split; [reflexivity | now rewrite Hl].
  - destruct (Lexeme value =? "'false'")%string.
    + destruct (Hr2 (setLockBlame (setLock c1 false) (Some (BlameToken value))))
        as (c2 & -> & Hl).
      split; [reflexivity | now rewrite Hl].
    + eexists. split; [reflexivity|].
      cbn [message]. unfold lockLiteralMsg. apply contains_app.
Qed.

Lemma inOrder_valid : validOrder inOrder.
Proof.
  intros props. apply Permutation_refl.
Qed.

Lemma reversed_valid : validOrder reversed.
Proof.
  intros props. apply Permutation_sym, Permutation_rev.
Qed.

Lemma initAttrChange_lock_boundary_witness :
  lockBoundary refLib reversed zeroAttrChange addrAndLock.
Proof.
  apply (initAttrChange_lock_boundary refLib reversed zeroAttrChange addrAndLock).
  - apply reversed_valid.
  - reflexivity.
  - intros e [<-|[<-|[]]].
    + intros _. reflexivity.
    + intros H. vm_compute in H. discriminate H.
Defined.

(** ** Visiting orders *)

Section Orders.

Variable lib : GoLib.

(** Two accepted entries of different fields can be taken in either
    order. *)
Lemma effect_commute (n1 v1 n2 v2 : Token) (f1 f2 : AttrChange -> AttrChange) :
  Lexeme n1 <> Lexeme n2 ->
  effect lib n1 v1 = Returns (f1, None) ->
  effect lib n2 v2 = Returns (f2, None) ->
  forall c, f1 (f2 c) = f2 (f1 c).
Proof.
  unfold effect. intros Hne.
  destruct (String.eqb_spec (Lexeme n1) "addr") as [E1|_];
    [|destruct (String.eqb_spec (Lexeme n1) "dbnameIn") as [E1|_];
      [|destruct (String.eqb_spec (Lexeme n1) "dbnameRewritten") as [E1|_];
        [|destruct (String.eqb_spec (Lexeme n1) "lock") as [E1|_]]]];
    (destruct (String.eqb_spec (Lexeme n2) "addr") as [E2|_];
     [|destruct (String.eqb_spec (Lexeme n2) "dbnameIn") as [E2|_];
       [|destruct (String.eqb_spec (Lexeme n2) "dbnameRewritten") as [E2|_];
         [|destruct (String.eqb_spec (Lexeme n2) "lock") as [E2|_]]]]);
    try (exfalso; apply Hne; congruence);
    repeat match goal with
           | |- context [if ?b then _ else _] => destruct b
           | |- context [match hostPortToAddr ?l ?n ?h with _ => _ end] =>
               destruct (hostPortToAddr l n h)
           end;
    intros H1 H2 c; try discriminate;
    inversion H1; inversion H2; reflexivity.
Qed.

Lemma rangeLoop_swap (x y : Token * Token) (l : list (Token * Token))
  (c c' : AttrChange) :
  fieldName x <> fieldName y ->
  rangeLoop lib c (x :: y :: l) = Returns (c', None) ->
  rangeLoop lib c (y :: x :: l) = Returns (c', None).
Proof.
  destruct x as [n1 v1], y as [n2 v2]. unfold fieldName. cbn [fst rangeLoop].
  intros Hne. rewrite !rangeBody_effect.
  destruct (effect lib n1 v1) as [[f1 [e1|]]|] eqn:E1; try discriminate.
  rewrite !rangeBody_effect.
  destruct (effect lib n2 v2) as [[f2 [e2|]]|] eqn:E2; try discriminate.
  rewrite !rangeBody_effect, E1.
  rewrite (effect_commute n1 v1 n2 v2 f1 f2 Hne E1 E2 c). auto.
Qed.

(** With every field named at most once, a run of the loop that accepts all
    entries ends in the same change in every order. *)
Lemma rangeLoop_perm (l l' : list (Token * Token)) :
  Permutation l l' ->
  NoDup (map fieldName l) ->
  forall c c', rangeLoop lib c l = Returns (c', None) ->
               rangeLoop lib c l' = Returns (c', None).
Proof.
  induction 1 as [|x l l' Hp IH|x y l|l l' l'' Hp1 IH1 Hp2 IH2];
    intros Hnd c c' Hr.
  - assumption.
  - destruct x as [n v]. cbn [rangeLoop] in *.
    destruct (rangeBody lib c n v) as [[c1 [e|]]|]; try discriminate.
    apply IH; [|assumption]. now inversion Hnd.
  - apply rangeLoop_swap; [|assumption].
    simpl in Hnd. inversion Hnd as [|? ? Hni _]. subst.
    intros E. apply Hni. left. now symmetry.
  - apply IH2.
    + eapply Permutation_NoDup; [|eassumption]. now apply Permutation_map.
    + now apply IH1.
Qed.

Variables visit1 visit2 : Props -> list (Token * Token).
Hypothesis valid1 : validOrder visit1.
Hypothesis valid2 : validOrder visit2.

Lemma initAttrChange_orders (props : Props) (c c' : AttrChange) :
  NoDup (map fieldName props) ->
  initAttrChange lib visit1 c props = Returns (c', None) ->
  initAttrChange lib visit2 c props = Returns (c', None).
Proof.
  unfold initAttrChange. intros Hnd.
  apply rangeLoop_perm.
  - eapply Permutation_trans; [apply valid1 | apply Permutation_sym, valid2].
  - eapply Permutation_NoDup; [|eassumption].
    apply Permutation_map, Permutation_sym, valid1.
Qed.

Lemma Analyze_orders (req : RequestSyntax) (d : Directive) :
  NoDup (map fieldName (propsOf req)) ->
  Analyze lib visit1 req = Returns (d, None) ->
  Analyze lib visit2 req = Returns (d, None).
Proof.
  destruct req as [spec action]. unfold propsOf, Analyze. cbn [Action].
  destruct action as [props|props| |]; intros Hnd; try (intros H; exact H).
  - unfold analyzePatch. cbn [Spec].
    destruct spec as [t|w|w o]; try (intros H; exact H).
    destruct (ParseUint lib (Lexeme o) 10 64) as [n|err];
      [|intros H; exact H].
    unfold newPatchDirective.
    destruct (initAttrChange lib visit1 zeroAttrChange props)
      as [[c [e|]]|] eqn:E; cbn [asDirective]; try discriminate.
    rewrite (initAttrChange_orders props zeroAttrChange c Hnd E).
    intros H; exact H.
  - unfold analyzeCreate. cbn [Spec].
    destruct spec as [t|w|w o]; try (intros H; exact H).
    unfold newCreateDirective.
    destruct (initAttrChange lib visit1 zeroAttrChange props)
      as [[c [e|]]|] eqn:E; cbn [asDirective]; try discriminate.
    rewrite (initAttrChange_orders props zeroAttrChange c Hnd E).
    intros H; exact H.
Qed.

End Orders.

(** C9, as stated, fails: the Patch whose mapping names [lock] by two
    tokens gives [Lock = false] when visited in one order and [Lock = true]
    in the other. *)
Lemma deterministicOn_fails :
  ~ deterministicOn refLib inOrder reversed twoLocksPatch.
Proof.
  intros H.
  specialize (H _ _ eq_refl eq_refl).
  vm_compute in H. discriminate H.
Qed.

(** C9, amended.  For a request whose property mapping names no field
    twice, a directive returned by one analysis is the directive returned by
    every other analysis, whatever order each one visits the mapping in. *)
Theorem Analyze_deterministic :
  forall (lib : GoLib) (visit1 visit2 : Props -> list (Token * Token))
         (req : RequestSyntax),
    validOrder visit1 ->
    validOrder visit2 ->
    NoDup (map fieldName (propsOf req)) ->
    deterministicOn lib visit1 visit2 req /\
    (forall d, Analyze lib visit1 req = Returns (d, None) ->
               Analyze lib visit2 req = Returns (d, None)).
Proof.
  intros lib visit1 visit2 req Hv1 Hv2 Hnd.
  assert (forall d, Analyze lib visit1 req = Returns (d, None) ->
                    Analyze lib visit2 req = Returns (d, None)) as Hsame
    by (intros d; now apply Analyze_orders).
  split; [|exact Hsame].
  intros d1 d2 H1 H2. apply Hsame in H1. rewrite H1 in H2.
  now inversion H2.
Qed.

Lemma Analyze_deterministic_witness :
  Analyze refLib reversed addrAndLockPatch = Returns (addrAndLockDirective, None).
Proof.
  apply (Analyze_deterministic refLib inOrder reversed addrAndLockPatch).
  - apply inOrder_valid.
  - apply reversed_valid.
  - vm_compute. repeat constructor; simpl; intuition discriminate.
  - reflexivity.
Defined.

(** ** More on dtoi *)

Lemma strFrom_S (i : nat) (c : ascii) (s : string) :
  strFrom (S i) (String c s) = strFrom i s.
Proof.
  reflexivity.
Qed.

Lemma strFrom_length (i0 : nat) :
  forall s, String.length (strFrom i0 s) = (String.length s - i0)%nat.
Proof.
  induction i0 as [|i0 IH]; intros s.
  - now rewrite strFrom_0, Nat.sub_0_r.
  - destruct s as [|c s]; [reflexivity|].
    rewrite strFrom_S, IH. reflexivity.
Qed.

Lemma strFrom_app (pre x : string) : strFrom (String.length pre) (pre ++ x) = x.
Proof.
  induction pre as [|c pre IH].
  - apply strFrom_0.
  - cbn [String.length append]. rewrite strFrom_S. exact IH.
Qed.

Lemma strlen_app (a b : string) : strlen (a ++ b) = strlen a + strlen b.
Proof.
  unfold strlen. induction a as [|c a IH]; cbn [String.length append].
  - reflexivity.
  - rewrite !Nat2Z.inj_succ, IH. lia.
Qed.

(** The offsets the loop hands back lie between the one it starts from and
    the end of the string; an early return points at a byte. *)
Lemma dtoiLoop_index (rest : string) :
  forall n i,
    match dtoiLoop rest n i with
    | inl j => i <= j < i + strlen rest
    | inr (_, i') => i <= i' <= i + strlen rest
    end.
Proof.
  induction rest as [|c rest IH]; intros n i; cbn [dtoiLoop].
  - unfold strlen. simpl. lia.
  - assert (strlen (String c rest) = strlen rest + 1) as ->
      by (unfold strlen; cbn [String.length]; lia).
    pose proof (Nat2Z.is_nonneg (String.length rest)) as Hlen.
    fold (strlen rest) in Hlen.
    destruct (isDigit c); [|lia].
    destruct (n * 10 + digitVal c >=? big); [lia|].
    specialize (IH (n * 10 + digitVal c) (i + 1)).
    destruct (dtoiLoop rest (n * 10 + digitVal c) (i + 1)) as [j|[n' i']]; lia.
Qed.

(** From the accumulator 0 a first digit is always taken. *)
Lemma dtoiLoop_start (rest : string) (i : Z) :
  noDigitAhead rest = false ->
  match dtoiLoop rest 0 i with
  | inl j => i < j
  | inr (_, i') => i < i'
  end.
Proof.
  destruct rest as [|c rest]; cbn [noDigitAhead dtoiLoop]; [discriminate|].
  intros H. apply negb_false_iff in H. rewrite H.
  pose proof (isDigit_digitVal c H) as Hd.
  destruct (Z.geb_spec (0 * 10 + digitVal c) big) as [Hge|_];
    [unfold big in Hge; lia|].
  pose proof (dtoiLoop_index rest (0 * 10 + digitVal c) (i + 1)) as Hi.
  destruct (dtoiLoop rest (0 * 10 + digitVal c) (i + 1)) as [j|[n' i']]; lia.
Qed.

Lemma dtoiLoop_no_digit (rest : string) (n i : Z) :
  noDigitAhead rest = true -> dtoiLoop rest n i = inr (n, i).
Proof.
  destruct rest as [|c rest]; cbn [noDigitAhead dtoiLoop]; [reflexivity|].
  intros H. apply negb_true_iff in H. now rewrite H.
Qed.

(** On digits followed by something else the loop stops at that byte. *)
Lemma dtoiLoop_leading_digits (d rest : string) :
  forall n i, 0 <= n -> allDigits d = true -> decimalFrom n d < big ->
    noDigitAhead rest = true ->
    dtoiLoop (d ++ rest) n i = inr (decimalFrom n d, i + strlen d).
Proof.
  induction d as [|c d IH]; intros n i Hn Hd Hv Hrest.
  - cbn [append decimalFrom]. rewrite dtoiLoop_no_digit by assumption.
    unfold strlen. simpl. now rewrite Z.add_0_r.
  - cbn [append dtoiLoop decimalFrom allDigits] in *.
    apply andb_true_iff in Hd as [Hc Hs]. rewrite Hc.
    pose proof (isDigit_digitVal c Hc) as Hc'.
    pose proof (decimalFrom_ge d (n * 10 + digitVal c) ltac:(lia) Hs) as Hge.
    destruct (Z.geb_spec (n * 10 + digitVal c) big) as [Hb|_]; [lia|].
    rewrite IH by (assumption || lia).
    f_equal. f_equal. unfold strlen. cbn [String.length]. lia.
Qed.

(** X1.  From offset 0, [dtoi] takes the whole token and succeeds exactly
    when the token is a strict decimal: digits only, at least one, and a
    number below [big]; the number is then the one it returns. *)
Theorem dtoi_whole_token_iff :
  forall (s : string) (n : Z),
    dtoi s 0 = (n, strlen s, true) <-> strictDecimal s = Some n.
Proof.
  intros s n. pose proof (dtoi_strictDecimal s) as H.
  destruct (strictDecimal s) as [v|].
  - rewrite H. split; intros E; inversion E; reflexivity.
  - destruct H as (n' & i & ok & -> & Hbad).
    split; [|discriminate].
    intros E. inversion E; subst. destruct Hbad; [discriminate|contradiction].
Qed.

(** X2.  Whatever the string and the offset, the number [dtoi] returns is in
    [0, big), the new offset lies between the old one and the end of the
    string, a success has moved it, and a failure returns the number 0. *)
Theorem dtoi_bounds :
  forall (s : string) (i0 : nat),
    let '(n, i, ok) := dtoi s i0 in
    0 <= n < big /\
    Z.of_nat i0 <= i <= Z.max (Z.of_nat i0) (strlen s) /\
    (ok = true -> Z.of_nat i0 < i) /\
    (ok = false -> n = 0).
Proof.
  intros s i0. unfold dtoi.
  pose proof (dtoiLoop_index (strFrom i0 s) 0 (Z.of_nat i0)) as Hi.
  pose proof (dtoiLoop_bounded (strFrom i0 s) 0 (Z.of_nat i0)) as Hb.
  assert (Z.of_nat i0 + strlen (strFrom i0 s)
          <= Z.max (Z.of_nat i0) (strlen s)) as Hlen
    by (unfold strlen; rewrite strFrom_length; lia).
  destruct (dtoiLoop (strFrom i0 s) 0 (Z.of_nat i0)) as [j|[n' i']].
  - unfold big. repeat split; try lia; discriminate.
  - specialize (Hb n' i' ltac:(unfold big; lia) eq_refl).
    destruct (Z.eqb_spec i' (Z.of_nat i0)) as [->|Hne].
    + unfold big. repeat split; try lia; discriminate.
    + repeat split; try lia; discriminate.
Qed.

(** X3.  Inside a longer string, [dtoi] reads the digits that start at the
    offset and stops at the first other byte: it returns their number and
    the offset of that byte. *)
Theorem dtoi_reads_leading_digits :
  forall (pre d rest : string),
    allDigits d = true ->
    d <> "" ->
    decimalValue d < big ->
    noDigitAhead rest = true ->
    dtoi (pre ++ d ++ rest) (String.length pre)
    = (decimalValue d, strlen pre + strlen d, true).
Proof.
  intros pre d rest Hd Hne Hv Hrest. unfold dtoi.
  rewrite strFrom_app.
  unfold decimalValue in *.
  rewrite dtoiLoop_leading_digits by (assumption || lia).
  fold (strlen pre).
  destruct (Z.eqb_spec (strlen pre + strlen d) (strlen pre)) as [E|_];
    [|reflexivity].
  destruct d; [congruence|]. unfold strlen in E. cbn [String.length] in E. lia.
Qed.

Lemma dtoi_reads_leading_digits_witness :
  dtoi ("10." ++ "0" ++ ".5") (String.length "10.") = (decimalValue "0", strlen "10." + strlen "0", true).
Proof.
  apply (dtoi_reads_leading_digits "10." "0" ".5").
  - reflexivity.
  - discriminate.
  - reflexivity.
  - reflexivity.
Defined.

(** X4.  [dtoi] leaves the offset where it was exactly when no digit is
    there, at the end of the string or before another byte, and it then
    fails. *)
Theorem dtoi_consumes_nothing_iff :
  forall (s : string) (i0 : nat),
    let '(n, i, ok) := dtoi s i0 in
    (i = Z.of_nat i0 <-> noDigitAhead (strFrom i0 s) = true) /\
    (i = Z.of_nat i0 -> ok = false).
Proof.
  intros s i0. unfold dtoi.
  destruct (noDigitAhead (strFrom i0 s)) eqn:Hn.
  - rewrite dtoiLoop_no_digit by assumption. rewrite Z.eqb_refl.
    split; [split; reflexivity | reflexivity].
  - pose proof (dtoiLoop_start (strFrom i0 s) (Z.of_nat i0) Hn) as Hs.
    destruct (dtoiLoop (strFrom i0 s) 0 (Z.of_nat i0)) as [j|[n' i']].
    + split; [split; [lia | discriminate] | reflexivity].
    + destruct (Z.eqb_spec i' (Z.of_nat i0)) as [E|_]; [lia|].
      split; [split; [lia | discriminate] | lia].
Qed.

(** ** More on hostPortToAddr *)

Lemma hostPortToAddr_bad_host (lib : GoLib)
  (network hostport host port : string) :
  SplitHostPort lib hostport = inl (host, port) ->
  hostAddr lib host = None ->
  hostPortToAddr lib network hostport = inr (errorString "Invalid IP passed").
Proof.
  intros Hs Hh. unfold hostPortToAddr. rewrite Hs.
  unfold hostAddr in Hh. destruct (host =? "")%string; [discriminate|].
  destruct (ParseIP lib host); [discriminate | reflexivity].
Qed.

Lemma hostAddr_None (lib : GoLib) (host : string) :
  hostAddr lib host = None <-> host <> "" /\ ParseIP lib host = None.
Proof.
  unfold hostAddr. destruct (String.eqb_spec host "") as [->|Hne].
  - split; [discriminate | intros [H _]; congruence].
  - destruct (ParseIP lib host); simpl; split; try discriminate; auto.
    intros [_ H]; discriminate.
Qed.

(** X5.  [hostPortToAddr] returns an endpoint exactly when the text splits
    into a host and a port, the host is empty or an IP literal, and the port
    candidate (strict decimal, else the service registry) is in [0, 65535];
    the endpoint is that IP, absent for an empty host, with that port. *)
Theorem hostPortToAddr_success_iff :
  forall (lib : GoLib) (network hostport : string) (a : TCPAddr),
    hostPortToAddr lib network hostport = inl a <->
    exists host port : string,
      SplitHostPort lib hostport = inl (host, port) /\
      hostAddr lib host = Some (tcpIP a) /\
      portCandidate lib network port = inl (tcpPort a) /\
      0 <= tcpPort a <= 65535.
Proof.
  intros lib network hostport a. split.
  - intros H.
    destruct (SplitHostPort lib hostport) as [[host port]|err] eqn:Hs;
      [|unfold hostPortToAddr in H; rewrite Hs in H; discriminate].
    exists host, port. split; [reflexivity|].
    destruct (hostAddr lib host) as [addr|] eqn:Hh;
      [|rewrite (hostPortToAddr_bad_host lib network hostport host port Hs Hh)
          in H; discriminate].
    rewrite (hostPortToAddr_port lib network hostport host port addr Hs Hh) in H.
    destruct (portCandidate lib network port) as [p|err]; [|discriminate].
    apply checkedPort_inl in H as [-> Hp]. cbn [tcpIP tcpPort]. auto.
  - intros (host & port & Hs & Hh & Hc & Hp).
    rewrite (hostPortToAddr_port lib network hostport host port (tcpIP a) Hs Hh).
    rewrite Hc, checkedPort_in_range by assumption. now destruct a.
Qed.

(** X6.  An error of [hostPortToAddr] is one of four: the error of the
    split, "Invalid IP passed" for a host that is not empty and not an IP
    literal, the error of the service registry for a port that is not a
    strict decimal, or "invalid port" with the port token for a candidate
    outside [0, 65535]. *)
Theorem hostPortToAddr_error_kinds :
  forall (lib : GoLib) (network hostport : string) (e : error),
    hostPortToAddr lib network hostport = inr e ->
    (exists err, SplitHostPort lib hostport = inr err /\ e = libError err) \/
    (exists host port,
        SplitHostPort lib hostport = inl (host, port) /\
        ((host <> "" /\ ParseIP lib host = None /\
          e = errorString "Invalid IP passed") \/
         (exists err, strictDecimal port = None /\
                      LookupPort lib network port = inr err /\
                      e = libError err) \/
         (exists p, portCandidate lib network port = inl p /\
                    ~ 0 <= p <= 65535 /\
                    e = AddrError "invalid port" port))).
Proof.
  intros lib network hostport e H.
  destruct (SplitHostPort lib hostport) as [[host port]|err] eqn:Hs.
  - right. exists host, port. split; [reflexivity|].
    destruct (hostAddr lib host) as [addr|] eqn:Hh.
    + rewrite (hostPortToAddr_port lib network hostport host port addr Hs Hh)
        in H.
      destruct (portCandidate lib network port) as [p|err] eqn:Hc.
      * right. right. exists p. split; [reflexivity|].
        destruct (Z_le_dec 0 p) as [H0|H0];
          [destruct (Z_le_dec p 65535) as [H1|H1]|].
        -- rewrite checkedPort_in_range in H by lia. discriminate.
        -- rewrite checkedPort_out_of_range in H by lia.
           inversion H. split; [lia | reflexivity].
        -- rewrite checkedPort_out_of_range in H by lia.
           inversion H. split; [lia | reflexivity].
      * right. left. exists err. inversion H; subst.
        unfold portCandidate in Hc.
        destruct (strictDecimal port); [discriminate|]. auto.
    + rewrite (hostPortToAddr_bad_host lib network hostport host port Hs Hh)
        in H.
      inversion H; subst. apply hostAddr_None in Hh as [Hne Hip]. auto.
  - left. exists err. unfold hostPortToAddr in H. rewrite Hs in H.
    inversion H. auto.
Qed.

Lemma hostPortToAddr_error_kinds_witness :
  (exists err, SplitHostPort refLib "10.0.0.5:70000" = inr err /\
               AddrError "invalid port" "70000" = libError err) \/
  (exists host port,
      SplitHostPort refLib "10.0.0.5:70000" = inl (host, port) /\
      ((host <> "" /\ ParseIP refLib host = None /\
        AddrError "invalid port" "70000" = errorString "Invalid IP passed") \/
       (exists err, strictDecimal port = None /\
                    LookupPort refLib "tcp" port = inr err /\
                    AddrError "invalid port" "70000" = libError err) \/
       (exists p, portCandidate refLib "tcp" port = inl p /\
                  ~ 0 <= p <= 65535 /\
                  AddrError "invalid port" "70000"
                  = AddrError "invalid port" port))).
Proof.
  apply (hostPortToAddr_error_kinds refLib "tcp" "10.0.0.5:70000").
  reflexivity.
Defined.

(** X7.  The magnitude bound of [dtoi] turns a long number into a service
    name: a port token of digits whose number is [big] or more is not
    refused as out of range but handed to the service registry, whose answer
    decides. *)
Theorem hostPortToAddr_long_number_is_looked_up :
  forall (lib : GoLib) (network hostport host port : string) (addr : option IP),
    SplitHostPort lib hostport = inl (host, port) ->
    hostAddr lib host = Some addr ->
    allDigits port = true ->
    big <= decimalValue port ->
    hostPortToAddr lib network hostport =
      match LookupPort lib network port with
      | inr err => inr (libError err)
      | inl p => checkedPort addr port p
      end.
Proof.
  intros lib network hostport host port addr Hs Hh Hd Hv.
  rewrite (hostPortToAddr_port lib network hostport host port addr Hs Hh).
  unfold portCandidate, strictDecimal. rewrite Hd.
  destruct (Z.ltb_spec (decimalValue port) big); [lia|].
  now rewrite andb_false_r.
Qed.

Lemma hostPortToAddr_long_number_is_looked_up_witness :
  hostPortToAddr refLib "tcp" "10.0.0.5:99999999" =
    match LookupPort refLib "tcp" "99999999" with
    | inr err => inr (libError err)
    | inl p =>
        checkedPort (Some [0; 0; 0; 0; 0; 0; 0; 0; 0; 0; 255; 255; 10; 0; 0; 5])
          "99999999" p
    end.
Proof.
  apply (hostPortToAddr_long_number_is_looked_up refLib "tcp"
           "10.0.0.5:99999999" "10.0.0.5" "99999999").
  - reflexivity.
  - reflexivity.
  - reflexivity.
  - vm_compute. discriminate.
Defined.

(** ** More on the attribute change builder *)

Section BuilderFacts.

Variable lib : GoLib.

Lemma accepted_effect (name value : Token) :
  accepted lib (name, value) = true <->
  exists f, effect lib name value = Returns (f, None).
Proof.
  unfold accepted. cbn [fst snd]. rewrite rangeBody_effect.
  destruct (effect lib name value) as [[f [e|]]|]; split;
    try discriminate; try (intros [f' H]; discriminate); eauto.
Qed.

Lemma rangeBody_accepted (c : AttrChange) (name value : Token) :
  accepted lib (name, value) = true <->
  exists c', rangeBody lib c name value = Returns (c', None).
Proof.
  rewrite accepted_effect, rangeBody_effect.
  destruct (effect lib name value) as [[f [e|]]|]; split;
    try (intros [x H]; discriminate); eauto.
Qed.

Lemma rangeLoop_success_iff (l : list (Token * Token)) :
  forall c,
    (exists c', rangeLoop lib c l = Returns (c', None)) <->
    (forall e, In e l -> accepted lib e = true).
Proof.
  induction l as [|[name value] l IH]; intros c; cbn [rangeLoop].
  - split; [intros _ e [] | eauto].
  - split.
    + intros [c' H] e [<-|He].
      * apply (rangeBody_accepted c).
        destruct (rangeBody lib c name value) as [[c1 [e1|]]|]; try discriminate.
        eauto.
      * destruct (rangeBody lib c name value) as [[c1 [e1|]]|]; try discriminate.
        apply (proj1 (IH c1)); eauto.
    + intros H.
      destruct (proj1 (rangeBody_accepted c name value)
                  (H _ (or_introl eq_refl))) as [c1 ->].
      apply IH. intros e He. apply H. now right.
Qed.

Lemma wellFormed_effect (name value : Token) :
  wellFormedEntry (name, value) = false <->
  exists why, effect lib name value = Panics why.
Proof.
  unfold wellFormedEntry, knownField, fieldName, effect. cbn [fst snd].
  destruct (Lexeme name =? "addr")%string; cbn [orb andb negb].
  - destruct (String.length (Lexeme value) <? 2)%nat eqn:E.
    + apply Nat.ltb_lt in E.
      destruct (Nat.leb_spec 2 (String.length (Lexeme value))) as [Hle|Hlt]; [lia|].
      split; eauto.
    + apply Nat.ltb_ge in E.
      destruct (Nat.leb_spec 2 (String.length (Lexeme value))) as [Hle|Hlt]; [|lia].
      destruct (hostPortToAddr lib "tcp" _); split; try discriminate;
        intros [w Hw]; discriminate.
  - destruct (Lexeme name =? "dbnameIn")%string; cbn [orb andb negb];
      [split; [discriminate | intros [w Hw]; discriminate]|].
    destruct (Lexeme name =? "dbnameRewritten")%string; cbn [orb andb negb];
      [split; [discriminate | intros [w Hw]; discriminate]|].
    destruct (Lexeme name =? "lock")%string; cbn [orb andb negb].
    + destruct (Lexeme value =? "'true'")%string;
        [|destruct (Lexeme value =? "'false'")%string];
        (split; [discriminate | intros [w Hw]; discriminate]).
    + split; eauto.
Qed.

(** A turn of the loop touches no field but the one its entry names. *)
Lemma rangeBody_frame (field : string) (c c' : AttrChange) (name value : Token)
  (err : option error) :
  rangeBody lib c name value = Returns (c', err) ->
  Lexeme name <> field ->
  slotOf field c' = slotOf field c.
Proof.
  unfold rangeBody. intros H Hne.
  destruct (String.eqb_spec (Lexeme name) "addr") as [E|_].
  { assert ((field =? "addr")%string = false) as Hf
      by (apply String.eqb_neq; congruence).
    unfold slotOf. rewrite Hf.
    destruct (String.length (Lexeme value) <? 2)%nat; [discriminate|].
    destruct (hostPortToAddr lib "tcp" _); inversion H; reflexivity. }
  destruct (String.eqb_spec (Lexeme name) "dbnameIn") as [E|_].
  { assert ((field =? "dbnameIn")%string = false) as Hf
      by (apply String.eqb_neq; congruence).
    unfold slotOf. rewrite Hf. inversion H; reflexivity. }
  destruct (String.eqb_spec (Lexeme name) "dbnameRewritten") as [E|_].
  { assert ((field =? "dbnameRewritten")%string = false) as Hf
      by (apply String.eqb_neq; congruence).
    unfold slotOf. rewrite Hf. inversion H; reflexivity. }
  destruct (String.eqb_spec (Lexeme name) "lock") as [E|_]; [|discriminate].
  assert ((field =? "lock")%string = false) as Hf
    by (apply String.eqb_neq; congruence).
  unfold slotOf. rewrite Hf.
  destruct (Lexeme value =? "'true'")%string;
    [|destruct (Lexeme value =? "'false'")%string];
    inversion H; reflexivity.
Qed.

Lemma rangeLoop_frame (field : string) (l : list (Token * Token)) :
  forall c c' err,
    (forall e, In e l -> fieldName e <> field) ->
    rangeLoop lib c l = Returns (c', err) ->
    slotOf field c' = slotOf field c.
Proof.
  induction l as [|[name value] l IH]; cbn [rangeLoop]; intros c c' err Hl H.
  - now inversion H.
  - pose proof (Hl (name, value) (or_introl eq_refl)) as Hn.
    unfold fieldName in Hn. cbn [fst] in Hn.
    destruct (rangeBody lib c name value) as [[c1 [e1|]]|] eqn:Hb;
      try discriminate.
    + inversion H; subst. eapply rangeBody_frame; eassumption.
    + rewrite (IH c1 c' err); [|intros e He; apply Hl; now right|assumption].
      eapply rangeBody_frame; eassumption.
Qed.

Lemma rangeBody_markers (c c' : AttrChange) (name value : Token)
  (err : option error) :
  markersCover c ->
  rangeBody lib c name value = Returns (c', err) ->
  markersCover c'.
Proof.
  intros (Ha & Hi & Hr & Hl). rewrite rangeBody_effect. unfold effect.
  repeat match goal with
         | |- context [if ?b then _ else _] => destruct b
         | |- context [match hostPortToAddr ?l ?n ?h with _ => _ end] =>
             destruct (hostPortToAddr l n h)
         end; intros H; inversion H; subst; unfold markersCover; cbn;
    repeat split; auto; discriminate.
Qed.

Lemma rangeLoop_markers (l : list (Token * Token)) :
  forall c c' err,
    markersCover c ->
    rangeLoop lib c l = Returns (c', err) ->
    markersCover c'.
Proof.
  induction l as [|[name value] l IH]; cbn [rangeLoop]; intros c c' err Hc H.
  - now inversion H; subst.
  - destruct (rangeBody lib c name value) as [[c1 [e1|]]|] eqn:Hb;
      try discriminate.
    + inversion H; subst. eapply rangeBody_markers; eassumption.
    + eapply IH; [|eassumption]. eapply rangeBody_markers; eassumption.
Qed.

Lemma rangeLoop_returns (l : list (Token * Token)) :
  forall c,
    (forall e, In e l -> wellFormedEntry e = true) ->
    exists c' err, rangeLoop lib c l = Returns (c', err).
Proof.
  induction l as [|[name value] l IH]; cbn [rangeLoop]; intros c H.
  - eauto.
  - rewrite rangeBody_effect.
    pose proof (H _ (or_introl eq_refl)) as Hw.
    destruct (effect lib name value) as [[f [e|]]|why] eqn:E.
    + eauto.
    + apply IH. intros e He. apply H. now right.
    + assert (wellFormedEntry (name, value) = false)
        by (apply wellFormed_effect; eauto).
      congruence.
Qed.

End BuilderFacts.

Lemma zeroAttrChange_markers : markersCover zeroAttrChange.
Proof.
  repeat split.
Qed.

Lemma substring_prefix (text rest : string) :
  substring 0 (String.length text) (text ++ rest) = text.
Proof.
  induction text as [|c text IH]; cbn [String.length append].
  - now destruct rest.
  - cbn [substring]. now rewrite IH.
Qed.

Lemma strip_first_and_last (q1 q2 : ascii) (text : string) :
  let lexeme := String q1 (text ++ String q2 EmptyString) in
  (String.length lexeme <? 2)%nat = false /\
  substring 1 (String.length lexeme - 2) lexeme = text.
Proof.
  cbv zeta.
  assert (String.length (String q1 (text ++ String q2 ""))
          = S (S (String.length text))) as ->.
  { cbn [String.length]. f_equal. induction text as [|c text IH];
      cbn [String.length append]; [reflexivity | now rewrite IH]. }
  split; [reflexivity|].
  cbn [Nat.sub substring]. rewrite Nat.sub_0_r. apply substring_prefix.
Qed.

(** X8.  The builder returns without an error exactly when every entry of
    the mapping is accepted; the order of the visit plays no part in it, so
    a mapping that succeeds in one order succeeds in all. *)
Theorem initAttrChange_success_iff :
  forall (lib : GoLib) (visit : Props -> list (Token * Token))
         (c : AttrChange) (props : Props),
    Permutation (visit props) props ->
    ((exists c', initAttrChange lib visit c props = Returns (c', None)) <->
     (forall e, In e props -> accepted lib e = true)).
Proof.
  intros lib visit c props Hperm. unfold initAttrChange.
  rewrite rangeLoop_success_iff. split; intros H e He; apply H.
  - eapply Permutation_in; [apply Permutation_sym|]; eassumption.
  - eapply Permutation_in; eassumption.
Qed.

Lemma initAttrChange_success_iff_witness :
  (exists c', initAttrChange refLib reversed zeroAttrChange addrAndLock
              = Returns (c', None)) <->
  (forall e, In e addrAndLock -> accepted refLib e = true).
Proof.
  apply (initAttrChange_success_iff refLib reversed zeroAttrChange addrAndLock).
  apply Permutation_sym, Permutation_rev.
Defined.

(** X9.  The builder stops at the first entry it visits that is not
    accepted: the error or the panic of that entry is the outcome of the
    builder, and the entries after it are not looked at. *)
Theorem initAttrChange_stops_at_first_refusal :
  forall (lib : GoLib) (visit : Props -> list (Token * Token))
         (c : AttrChange) (props : Props)
         (pre post : list (Token * Token)) (name value : Token),
    visit props = (pre ++ (name, value) :: post)%list ->
    (forall e, In e pre -> accepted lib e = true) ->
    match rangeBody lib zeroAttrChange name value with
    | Returns (_, Some e) =>
        exists c', initAttrChange lib visit c props = Returns (c', Some e)
    | Panics why => initAttrChange lib visit c props = Panics why
    | Returns (_, None) => True
    end.
Proof.
  intros lib visit c props pre post name value Hv Hpre.
  unfold initAttrChange. rewrite Hv, rangeLoop_app.
  destruct (proj2 (rangeLoop_success_iff lib pre c) Hpre) as [c1 ->].
  cbn [rangeLoop]. rewrite !rangeBody_effect.
  destruct (effect lib name value) as [[f [e|]]|why]; eauto.
Qed.

Lemma initAttrChange_stops_at_first_refusal_witness :
  match rangeBody refLib zeroAttrChange (tok "lock" 1 24) (tok "'yes'" 1 29) with
  | Returns (_, Some e) =>
      exists c', initAttrChange refLib reversed zeroAttrChange
                   [(tok "bogus" 1 34, tok "z" 1 40);
                    (tok "lock" 1 24, tok "'yes'" 1 29);
                    (tok "dbnameIn" 1 14, tok "'x'" 1 23)]
                 = Returns (c', Some e)
  | Panics why =>
      initAttrChange refLib reversed zeroAttrChange
        [(tok "bogus" 1 34, tok "z" 1 40);
         (tok "lock" 1 24, tok "'yes'" 1 29);
         (tok "dbnameIn" 1 14, tok "'x'" 1 23)]
      = Panics why
  | Returns (_, None) => True
  end.
Proof.
  apply (initAttrChange_stops_at_first_refusal refLib reversed zeroAttrChange _
           [(tok "dbnameIn" 1 14, tok "'x'" 1 23)]
           [(tok "bogus" 1 34, tok "z" 1 40)]).
  - reflexivity.
  - intros e [<-|[]]. reflexivity.
Defined.

(** X10.  A turn of the loop panics exactly on an entry that is not well
    formed: a field name without a case, or an [addr] value shorter than two
    bytes, which cannot lose its first and last byte. *)
Theorem rangeBody_panics_iff :
  forall (lib : GoLib) (c : AttrChange) (name value : Token),
    (exists why, rangeBody lib c name value = Panics why) <->
    wellFormedEntry (name, value) = false.
Proof.
  intros lib c name value. rewrite (wellFormed_effect lib), rangeBody_effect.
  destruct (effect lib name value) as [[f e]|why]; split;
    try (intros [w H]; discriminate); eauto.
Qed.

(** X11.  A field that no entry of the mapping names is left as it was,
    marker and value, whether the builder ends with an error or not. *)
Theorem initAttrChange_frame :
  forall (lib : GoLib) (visit : Props -> list (Token * Token))
         (field : string) (c c' : AttrChange) (props : Props)
         (err : option error),
    Permutation (visit props) props ->
    (forall e, In e props -> fieldName e <> field) ->
    initAttrChange lib visit c props = Returns (c', err) ->
    slotOf field c' = slotOf field c.
Proof.
  intros lib visit field c c' props err Hperm Hn H.
  unfold initAttrChange in H.
  eapply rangeLoop_frame; [|eassumption].
  intros e He. apply Hn. eapply Permutation_in; eassumption.
Qed.

Lemma initAttrChange_frame_witness :
  exists c' err,
    initAttrChange refLib reversed zeroAttrChange badAddrAndLock
    = Returns (c', err) /\
    slotOf "dbnameIn" c' = slotOf "dbnameIn" zeroAttrChange.
Proof.
  eexists. eexists. split; [vm_compute; reflexivity|].
  apply (initAttrChange_frame refLib reversed "dbnameIn" zeroAttrChange _
           badAddrAndLock
           (Some (errorString
                    "Could not recognize lock literal 'yes', choose 'true' or 'false'"))).
  - apply Permutation_sym, Permutation_rev.
  - intros e [<-|[<-|[]]]; discriminate.
  - reflexivity.
Defined.

(** X12.  When the builder succeeds, each field holds what the last visited
    entry naming it says: a database name is the value's text as written,
    quotes included; the lock is the boolean the literal spells; the address
    is the endpoint resolved from the value without its first and last byte;
    and the marker of the field is the value token of that entry. *)
Theorem initAttrChange_last_entry_decides :
  forall (lib : GoLib) (visit : Props -> list (Token * Token))
         (c c' : AttrChange) (props : Props)
         (pre post : list (Token * Token)) (name value : Token),
    visit props = (pre ++ (name, value) :: post)%list ->
    (forall e, In e post -> fieldName e <> Lexeme name) ->
    initAttrChange lib visit c props = Returns (c', None) ->
    (Lexeme name = "dbnameIn" ->
     DbnameIn c' = Lexeme value /\ DbnameInBlame c' = Some (BlameToken value)) /\
    (Lexeme name = "dbnameRewritten" ->
     DbnameRewritten c' = Lexeme value /\
     DbnameRewrittenBlame c' = Some (BlameToken value)) /\
    (Lexeme name = "lock" ->
     Lexeme value = (if Lock c' then "'true'" else "'false'") /\
     LockBlame c' = Some (BlameToken value)) /\
    (Lexeme name = "addr" ->
     exists a : TCPAddr,
       hostPortToAddr lib "tcp"
         (substring 1 (String.length (Lexeme value) - 2) (Lexeme value))
       = inl a /\
       Addr c' = Some a /\
       AddrBlame c' = Some (BlameToken value)).
Proof.
  intros lib visit c c' props pre post name value Hv Hpost H.
  unfold initAttrChange in H. rewrite Hv, rangeLoop_app in H.
  destruct (rangeLoop lib c pre) as [[c1 [e1|]]|]; try discriminate.
  cbn [rangeLoop] in H.
  destruct (rangeBody lib c1 name value) as [[c2 [e2|]]|] eqn:Hb;
    try discriminate.
  pose proof (rangeLoop_frame lib (Lexeme name) post c2 c' None Hpost H) as Hf.
  unfold rangeBody in Hb. unfold slotOf in Hf.
  split; [|split; [|split]]; intros Hn; rewrite Hn in Hb, Hf;
    cbn [String.eqb Ascii.eqb Bool.eqb] in Hb, Hf.
  - inversion Hb; subst. inversion Hf. auto.
  - inversion Hb; subst. inversion Hf. auto.
  - destruct (String.eqb_spec (Lexeme value) "'true'") as [E|_].
    + inversion Hb; subst. inversion Hf as [[Hm Hl]]. rewrite Hl. auto.
    + destruct (String.eqb_spec (Lexeme value) "'false'") as [E|_];
        [|discriminate].
      inversion Hb; subst. inversion Hf as [[Hm Hl]]. rewrite Hl. auto.
  - destruct (String.length (Lexeme value) <? 2)%nat; [discriminate|].
    destruct (hostPortToAddr lib "tcp" _) as [a|err]; [|discriminate].
    inversion Hb; subst. inversion Hf as [[Hm Ha]]. exists a. auto.
Qed.

Lemma initAttrChange_last_entry_decides_witness :
  exists c',
    initAttrChange refLib inOrder zeroAttrChange twoLocks = Returns (c', None) /\
    (Lexeme (tok "lock" 1 27) = "lock" ->
     Lexeme (tok "'false'" 1 32) = (if Lock c' then "'true'" else "'false'") /\
     LockBlame c' = Some (BlameToken (tok "'false'" 1 32))).
Proof.
  eexists. split; [vm_compute; reflexivity|].
  apply (initAttrChange_last_entry_decides refLib inOrder zeroAttrChange _
           twoLocks [(tok "lock" 1 14, tok "'true'" 1 19)] []
           (tok "lock" 1 27) (tok "'false'" 1 32)).
  - reflexivity.
  - intros e [].
  - reflexivity.
Defined.

(** X13.  For an [addr] entry the value loses its first and its last byte,
    whatever they are, and what is left is resolved on the network "tcp":
    an endpoint is stored with the value token as marker, and an error is
    returned as it is, with the address of the change reset to [nil]. *)
Theorem rangeBody_addr_strips_first_and_last :
  forall (lib : GoLib) (c : AttrChange) (name value : Token)
         (q1 q2 : ascii) (text : string),
    Lexeme name = "addr" ->
    Lexeme value = String q1 (text ++ String q2 EmptyString) ->
    rangeBody lib c name value =
      match hostPortToAddr lib "tcp" text with
      | inl a =>
          Returns (setAddrBlame (setAddr c (Some a)) (Some (BlameToken value)),
                   None)
      | inr err => Returns (setAddr c None, Some err)
      end.
Proof.
  intros lib c name value q1 q2 text Hn Hv.
  unfold rangeBody. rewrite Hn, Hv. cbn [String.eqb Ascii.eqb Bool.eqb].
  destruct (strip_first_and_last q1 q2 text) as [-> ->].
  destruct (hostPortToAddr lib "tcp" text); reflexivity.
Qed.

Lemma rangeBody_addr_strips_first_and_last_witness :
  rangeBody refLib zeroAttrChange (tok "addr" 1 14) (tok "<:http>" 1 19) =
    match hostPortToAddr refLib "tcp" ":http" with
    | inl a =>
        Returns (setAddrBlame (setAddr zeroAttrChange (Some a))
                   (Some (BlameToken (tok "<:http>" 1 19))), None)
    | inr err => Returns (setAddr zeroAttrChange None, Some err)
    end.
Proof.
  apply (rangeBody_addr_strips_first_and_last refLib zeroAttrChange
           (tok "addr" 1 14) (tok "<:http>" 1 19) "<" ">" ":http").
  - reflexivity.
  - reflexivity.
Defined.

(** ** More on Analyze *)

Section AnalyzeFacts.

Variable lib : GoLib.
Variable visit : Props -> list (Token * Token).

Lemma initAttrChange_markers (c c' : AttrChange) (props : Props)
  (err : option error) :
  markersCover c ->
  initAttrChange lib visit c props = Returns (c', err) ->
  markersCover c'.
Proof.
  unfold initAttrChange. apply rangeLoop_markers.
Qed.

Lemma initAttrChange_error_plain (c c' : AttrChange) (props : Props)
  (e : error) :
  initAttrChange lib visit c props = Returns (c', Some e) ->
  anchored e = false /\ isErrBadTarget e = false.
Proof.
  unfold initAttrChange. apply rangeLoop_error_plain.
Qed.

End AnalyzeFacts.

(** X14.  In every Patch and Create directive the analyzer returns, a value
    of the change is set only under its marker: a field whose marker is
    [nil] has the zero value. *)
Theorem Analyze_change_markers :
  forall (lib : GoLib) (visit : Props -> list (Token * Token))
         (req : RequestSyntax),
    match Analyze lib visit req with
    | Returns (ptrPatch (Some d), _) => markersCover (patchChange d)
    | Returns (ptrCreate (Some d), _) => markersCover (createChange d)
    | _ => True
    end.
Proof.
  intros lib visit [spec action]. unfold Analyze. cbn [Action].
  destruct action as [props|props| |].
  - unfold analyzePatch. cbn [Spec].
    destruct spec as [t|w|w o]; cbn [asDirective]; auto.
    destruct (ParseUint lib (Lexeme o) 10 64) as [n|err];
      cbn [asDirective]; auto.
    unfold newPatchDirective.
    destruct (initAttrChange lib visit zeroAttrChange props)
      as [[c [e|]]|] eqn:E; cbn [asDirective patchChange]; auto.
    eapply initAttrChange_markers; [apply zeroAttrChange_markers | exact E].
  - unfold analyzeCreate. cbn [Spec].
    destruct spec as [t|w|w o]; cbn [asDirective]; auto.
    unfold newCreateDirective.
    destruct (initAttrChange lib visit zeroAttrChange props)
      as [[c [e|]]|] eqn:E; cbn [asDirective createChange]; auto.
    eapply initAttrChange_markers; [apply zeroAttrChange_markers | exact E].
  - unfold analyzeGet. cbn [Spec].
    destruct spec as [t|w|w o]; cbn [asDirective]; auto.
  - auto.
Qed.

(** X15.  A Patch on the whole table or on a name without a version is
    refused before anything else is looked at: whatever the property mapping
    holds, the analyzer returns no directive and a bad-target error anchored
    at the target, whose message names [TargetOcnSpecSyntax] as expected and
    the type of the target given. *)
Theorem Analyze_patch_bad_target :
  forall (lib : GoLib) (visit : Props -> list (Token * Token))
         (props : Props) (t : Token),
    Analyze lib visit
      {| Spec := TargetAllSpecSyntax t; Action := PatchActionSyntax props |}
    = Returns (ptrPatch None,
               Some (ErrBadTarget
                       (semError (BlameSpec (TargetAllSpecSyntax t))
                          "Incorrect target type: expected TargetOcnSpecSyntax, got *dogconf.TargetAllSpecSyntax"))) /\
    Analyze lib visit
      {| Spec := TargetOneSpecSyntax t; Action := PatchActionSyntax props |}
    = Returns (ptrPatch None,
               Some (ErrBadTarget
                       (semError (BlameSpec (TargetOneSpecSyntax t))
                          "Incorrect target type: expected TargetOcnSpecSyntax, got *dogconf.TargetOneSpecSyntax"))).
Proof.
  intros lib visit props t. split; reflexivity.
Qed.

(** X16.  A Patch whose version does not parse is refused before its
    property mapping is looked at: the analyzer returns no directive and an
    error anchored at the version token, whose message is "Could not parse
    OCN, " followed by the text of the parse error; it is not a bad-target
    error. *)
Theorem Analyze_patch_bad_version :
  forall (lib : GoLib) (visit : Props -> list (Token * Token))
         (props : Props) (what ocn : Token) (err : string),
    ParseUint lib (Lexeme ocn) 10 64 = inr err ->
    Analyze lib visit
      {| Spec := TargetOcnSpecSyntax what ocn;
         Action := PatchActionSyntax props |}
    = Returns (ptrPatch None,
               Some (semError (BlameToken ocn) ("Could not parse OCN, " ++ err))).
Proof.
  intros lib visit props what ocn err H.
  unfold Analyze, analyzePatch. cbn [Action Spec]. rewrite H. reflexivity.
Qed.

Lemma Analyze_patch_bad_version_witness :
  Analyze refLib inOrder
    {| Spec := TargetOcnSpecSyntax (tok "fdr" 1 7) (tok "-1" 1 11);
       Action := PatchActionSyntax [(tok "bogus" 1 14, tok "" 1 20)] |}
  = Returns (ptrPatch None,
             Some (semError (BlameToken (tok "-1" 1 11))
                     ("Could not parse OCN, " ++
                      "strconv.ParseUint: parsing " ++ dquote ++ "-1" ++ dquote
                      ++ ": invalid syntax"))).
Proof.
  apply (Analyze_patch_bad_version refLib inOrder).
  reflexivity.
Defined.

(** X17.  The analyzer hands back a directive or an error, never both: with
    an error the interface holds no directive, and without one it holds the
    directive of the action, except for a Delete, which gives the [nil]
    interface and no error. *)
Theorem Analyze_directive_or_error :
  forall (lib : GoLib) (visit : Props -> list (Token * Token))
         (req : RequestSyntax),
    match Analyze lib visit req with
    | Returns (d, Some _) => noDirective d = true
    | Returns (d, None) => answers (Action req) d = true
    | Panics _ => True
    end.
Proof.
  intros lib visit [spec action]. unfold Analyze. cbn [Action].
  destruct action as [props|props| |].
  - unfold analyzePatch. cbn [Spec].
    destruct spec as [t|w|w o]; cbn [asDirective]; auto.
    destruct (ParseUint lib (Lexeme o) 10 64) as [n|err];
      cbn [asDirective]; auto.
    unfold newPatchDirective.
    destruct (initAttrChange lib visit zeroAttrChange props)
      as [[c [e|]]|]; cbn [asDirective]; auto.
  - unfold analyzeCreate. cbn [Spec].
    destruct spec as [t|w|w o]; cbn [asDirective]; auto.
    unfold newCreateDirective.
    destruct (initAttrChange lib visit zeroAttrChange props)
      as [[c [e|]]|]; cbn [asDirective]; auto.
  - unfold analyzeGet. cbn [Spec].
    destruct spec as [t|w|w o]; cbn [asDirective]; auto.
  - reflexivity.
Qed.

(** X18.  An error of the analyzer is one of three: a bad-target error
    anchored at the target specification; for a Patch, the version parse
    error anchored at the version token; or an error of the attribute change
    builder, which is passed on as it is and carries no position. *)
Theorem Analyze_error_kinds :
  forall (lib : GoLib) (visit : Props -> list (Token * Token))
         (req : RequestSyntax) (d : Directive) (e : error),
    Analyze lib visit req = Returns (d, Some e) ->
    (exists msg, e = ErrBadTarget (semError (BlameSpec (Spec req)) msg)) \/
    (exists what ocn err,
        Spec req = TargetOcnSpecSyntax what ocn /\
        ParseUint lib (Lexeme ocn) 10 64 = inr err /\
        e = semError (BlameToken ocn) ("Could not parse OCN, " ++ err)) \/
    (anchored e = false /\ isErrBadTarget e = false /\
     exists c, initAttrChange lib visit zeroAttrChange (propsOf req)
               = Returns (c, Some e)).
Proof.
  intros lib visit [spec action] d e. unfold Analyze, propsOf. cbn [Action Spec].
  destruct action as [props|props| |].
  - unfold analyzePatch. cbn [Spec].
    destruct spec as [t|w|w o]; cbn [asDirective];
      try (intros H; inversion H; left; eexists; reflexivity).
    destruct (ParseUint lib (Lexeme o) 10 64) as [n|err] eqn:Hp;
      cbn [asDirective].
    + unfold newPatchDirective.
      destruct (initAttrChange lib visit zeroAttrChange props)
        as [[c [e'|]]|] eqn:E; cbn [asDirective]; try discriminate.
      intros H; inversion H; subst. right. right.
      destruct (initAttrChange_error_plain lib visit _ _ _ _ E). eauto.
    + intros H; inversion H; subst. right. left.
      exists w, o, err. auto.
  - unfold analyzeCreate. cbn [Spec].
    destruct spec as [t|w|w o]; cbn [asDirective];
      try (intros H; inversion H; left; eexists; reflexivity).
    unfold newCreateDirective.
    destruct (initAttrChange lib visit zeroAttrChange props)
      as [[c [e'|]]|] eqn:E; cbn [asDirective]; try discriminate.
    intros H; inversion H; subst. right. right.
    destruct (initAttrChange_error_plain lib visit _ _ _ _ E). eauto.
  - unfold analyzeGet. cbn [Spec].
    destruct spec as [t|w|w o]; cbn [asDirective]; try discriminate.
    intros H; inversion H; left; eexists; reflexivity.
  - discriminate.
Qed.

Lemma Analyze_error_kinds_witness :
  (exists msg,
      errorString "Could not recognize lock literal 'yes', choose 'true' or 'false'"
      = ErrBadTarget (semError (BlameSpec (Spec lockYesPatch)) msg)) \/
  (exists what ocn err,
      Spec lockYesPatch = TargetOcnSpecSyntax what ocn /\
      ParseUint refLib (Lexeme ocn) 10 64 = inr err /\
      errorString "Could not recognize lock literal 'yes', choose 'true' or 'false'"
      = semError (BlameToken ocn) ("Could not parse OCN, " ++ err)) \/
  (anchored
     (errorString "Could not recognize lock literal 'yes', choose 'true' or 'false'")
   = false /\
   isErrBadTarget
     (errorString "Could not recognize lock literal 'yes', choose 'true' or 'false'")
   = false /\
   exists c,
     initAttrChange refLib inOrder zeroAttrChange (propsOf lockYesPatch)
     = Returns
         (c, Some (errorString
                     "Could not recognize lock literal 'yes', choose 'true' or 'false'"))).
Proof.
  apply (Analyze_error_kinds refLib inOrder lockYesPatch (ptrPatch None)).
  reflexivity.
Defined.

(** X19.  The analyzer panics only inside the builder, and only on an entry
    that is not well formed: when every entry of the request names a field
    the builder knows and every [addr] value has two bytes or more, the
    analyzer returns. *)
Theorem Analyze_returns_on_well_formed :
  forall (lib : GoLib) (visit : Props -> list (Token * Token))
         (req : RequestSyntax),
    Permutation (visit (propsOf req)) (propsOf req) ->
    (forall e, In e (propsOf req) -> wellFormedEntry e = true) ->
    exists d err, Analyze lib visit req = Returns (d, err).
Proof.
  intros lib visit [spec action]. unfold Analyze, propsOf. cbn [Action].
  intros Hperm Hwf.
  assert (forall props, props = match action with
                                | PatchActionSyntax p | CreateActionSyntax p => p
                                | _ => []
                                end ->
                        exists c err, initAttrChange lib visit zeroAttrChange props
                                      = Returns (c, err)) as Hb.
  { intros props ->. unfold initAttrChange. apply rangeLoop_returns.
    intros e He. apply Hwf. eapply Permutation_in; eassumption. }
  destruct action as [props|props| |].
  - unfold analyzePatch. cbn [Spec].
    destruct spec as [t|w|w o]; cbn [asDirective]; eauto.
    destruct (ParseUint lib (Lexeme o) 10 64) as [n|err];
      cbn [asDirective]; eauto.
    unfold newPatchDirective.
    destruct (Hb props eq_refl) as (c & err & ->).
    destruct err; cbn [asDirective]; eauto.
  - unfold analyzeCreate. cbn [Spec].
    destruct spec as [t|w|w o]; cbn [asDirective]; eauto.
    unfold newCreateDirective.
    destruct (Hb props eq_refl) as (c & err & ->).
    destruct err; cbn [asDirective]; eauto.
  - unfold analyzeGet. cbn [Spec].
    destruct spec as [t|w|w o]; cbn [asDirective]; eauto.
  - eauto.
Qed.

Lemma Analyze_returns_on_well_formed_witness :
  exists d err, Analyze refLib reversed lockYesPatch = Returns (d, err).
Proof.
  apply (Analyze_returns_on_well_formed refLib reversed lockYesPatch).
  - apply Permutation_sym, Permutation_rev.
  - intros e [<-|[]]. reflexivity.
Defined.

(** X20.  A Create on a name whose entries are all accepted returns a
    Create directive: its name is the text of the name token, its anchors
    are the action and the target specification, and its change is the one
    the builder made from the zero change. *)
Theorem Analyze_create_accepted :
  forall (lib : GoLib) (visit : Props -> list (Token * Token))
         (what : Token) (props : Props),
    Permutation (visit props) props ->
    (forall e, In e props -> accepted lib e = true) ->
    exists c,
      initAttrChange lib visit zeroAttrChange props = Returns (c, None) /\
      Analyze lib visit
        {| Spec := TargetOneSpecSyntax what; Action := CreateActionSyntax props |}
      = Returns
          (ptrCreate
             (Some {| createBlamer := BlameAction (CreateActionSyntax props);
                      createTargetOne :=
                        {| oneBlamer := BlameSpec (TargetOneSpecSyntax what);
                           What := Lexeme what |};
                      createChange := c |}),
           None).
Proof.
  intros lib visit what props Hperm Hacc.
  assert (exists c, initAttrChange lib visit zeroAttrChange props
                    = Returns (c, None)) as [c Hc].
  { unfold initAttrChange. apply rangeLoop_success_iff.
    intros e He. apply Hacc. eapply Permutation_in; eassumption. }
  exists c. split; [assumption|].
  unfold Analyze, analyzeCreate, newCreateDirective. cbn [Action Spec].
  rewrite Hc. reflexivity.
Qed.

Lemma Analyze_create_accepted_witness :
  exists c,
    initAttrChange refLib reversed zeroAttrChange addrAndLock
    = Returns (c, None) /\
    Analyze refLib reversed
      {| Spec := TargetOneSpecSyntax (tok "fdr" 1 8);
         Action := CreateActionSyntax addrAndLock |}
    = Returns
        (ptrCreate
           (Some {| createBlamer := BlameAction (CreateActionSyntax addrAndLock);
                    createTargetOne :=
                      {| oneBlamer :=
                           BlameSpec (TargetOneSpecSyntax (tok "fdr" 1 8));
                         What := Lexeme (tok "fdr" 1 8) |};
                    createChange := c |}),
         None).
Proof.
  apply (Analyze_create_accepted refLib reversed (tok "fdr" 1 8) addrAndLock).
  - apply Permutation_sym, Permutation_rev.
  - intros e [<-|[<-|[]]]; reflexivity.
Defined.

(** X21.  A Patch on a versioned target whose version parses and whose
    entries are all accepted returns a Patch directive that carries the
    parsed version, is anchored at the action and at the target
    specification, and holds the change the builder made from the zero
    change. *)
Theorem Analyze_patch_accepted :
  forall (lib : GoLib) (visit : Props -> list (Token * Token))
         (what ocn : Token) (n : Z) (props : Props),
    ParseUint lib (Lexeme ocn) 10 64 = inl n ->
    Permutation (visit props) props ->
    (forall e, In e props -> accepted lib e = true) ->
    exists d,
      Analyze lib visit
        {| Spec := TargetOcnSpecSyntax what ocn;
           Action := PatchActionSyntax props |}
      = Returns (ptrPatch (Some d), None) /\
      Ocn (patchTargetOcn d) = n /\
      ocnBlamer (patchTargetOcn d) = BlameSpec (TargetOcnSpecSyntax what ocn) /\
      patchBlamer d = BlameAction (PatchActionSyntax props) /\
      initAttrChange lib visit zeroAttrChange props
      = Returns (patchChange d, None).
Proof.
  intros lib visit what ocn n props Hn Hperm Hacc.
  assert (exists c, initAttrChange lib visit zeroAttrChange props
                    = Returns (c, None)) as [c Hc].
  { unfold initAttrChange. apply rangeLoop_success_iff.
    intros e He. apply Hacc. eapply Permutation_in; eassumption. }
  unfold Analyze, analyzePatch, newPatchDirective. cbn [Action Spec].
  rewrite Hn, Hc. cbn [asDirective].
  eexists. split; [reflexivity|]. cbn. auto.
Qed.

Lemma Analyze_patch_accepted_witness :
  exists d,
    Analyze refLib reversed addrAndLockPatch = Returns (ptrPatch (Some d), None) /\
    Ocn (patchTargetOcn d) = 7 /\
    ocnBlamer (patchTargetOcn d)
    = BlameSpec (TargetOcnSpecSyntax (tok "fdr" 1 7) (tok "7" 1 11)) /\
    patchBlamer d = BlameAction (PatchActionSyntax addrAndLock) /\
    initAttrChange refLib reversed zeroAttrChange addrAndLock
    = Returns (patchChange d, None).
Proof.
  apply (Analyze_patch_accepted refLib reversed (tok "fdr" 1 7) (tok "7" 1 11)
           7 addrAndLock).
  - reflexivity.
  - apply Permutation_sym, Permutation_rev.
  - intros e [<-|[<-|[]]]; reflexivity.
Defined.

(** ** The routing table and the data set of toydog *)

Lemma mapIndex_assign_other (m : Table) (k k' : string) :
  k <> k' ->
  mapIndex (filter (fun e => negb (fst e =? k)%string) m) k' = mapIndex m k'.
Proof.
  intros Hne. induction m as [|[k0 v0] m IH]; cbn [filter mapIndex fst].
  - reflexivity.
  - destruct (String.eqb_spec k0 k) as [->|Hk]; cbn [negb].
    + destruct (String.eqb_spec k k'); [contradiction | exact IH].
    + cbn [mapIndex]. now rewrite IH.
Qed.

(** X22.  A new routing table routes every name to the empty address; after
    [SetRoute] the name set is routed to the address given, and every other
    name as before. *)
Theorem Route_after_SetRoute :
  (forall dbname, Route NewRoutingTable dbname = "") /\
  (forall r dbname addr, Route (SetRoute r dbname addr) dbname = addr) /\
  (forall r dbname addr other,
      other <> dbname ->
      Route (SetRoute r dbname addr) other = Route r other).
Proof.
  split; [reflexivity|]. split.
  - intros r dbname addr. unfold Route, SetRoute, mapAssign. cbn.
    now rewrite String.eqb_refl.
  - intros r dbname addr other Hne. unfold Route, SetRoute, mapAssign. cbn.
    destruct (String.eqb_spec dbname other) as [E|_]; [congruence|].
    apply mapIndex_assign_other. intros E. apply Hne. now symmetry.
Qed.

Lemma sendRows_app (rowLen : nat) (good rest : list (list QueryValue)) :
  forall stream,
    (forall row, In row good -> List.length row = rowLen) ->
    sendRows rowLen (good ++ rest) stream
    = sendRows rowLen rest
        (stream ++ map (fun row => NewDataRow (map Value row)) good)%list.
Proof.
  induction good as [|row good IH]; intros stream H; cbn [app map sendRows].
  - now rewrite app_nil_r.
  - rewrite (H row (or_introl eq_refl)), Nat.eqb_refl. cbn [negb].
    rewrite IH by (intros r Hr; apply H; now right).
    now rewrite <- app_assoc.
Qed.

(** X23.  When every row has as many items as there are column names,
    [SendDataSet] sends, after what the stream already carried, the row
    description of the columns (all of type [STRING]), one data row per row
    in order, and a command-complete message whose tag is "SELECT" with the
    number of columns; it does not panic. *)
Theorem SendDataSet_sends :
  forall (stream : list Message) (colnames : list string)
         (rows : list (list QueryValue)),
    (forall row, In row rows -> List.length row = List.length colnames) ->
    SendDataSet stream colnames rows
    = ((stream
        ++ [NewRowDescription (map (fun name => (name, STRING)) colnames)]
        ++ map (fun row => NewDataRow (map Value row)) rows
        ++ [NewCommandComplete ("SELECT " ++ showInt (List.length colnames))])%list,
       None).
Proof.
  intros stream colnames rows H. unfold SendDataSet.
  rewrite <- (app_nil_r rows) at 1. rewrite sendRows_app by assumption.
  cbn [sendRows]. now rewrite <- !app_assoc.
Qed.

Lemma SendDataSet_sends_witness :
  SendDataSet [] ["key"; "value"]
    [[QueryStr "fdr"; QueryStr "/var/run/postgresql/.s.PGSQL.5432"]]
  = (([]
      ++ [NewRowDescription (map (fun name => (name, STRING)) ["key"; "value"])]
      ++ map (fun row => NewDataRow (map Value row))
           [[QueryStr "fdr"; QueryStr "/var/run/postgresql/.s.PGSQL.5432"]]
      ++ [NewCommandComplete
            ("SELECT " ++ showInt (List.length ["key"; "value"]))])%list,
     None).
Proof.
  apply (SendDataSet_sends [] ["key"; "value"]).
  intros row [<-|[]]. reflexivity.
Defined.

(** X24.  At the first row whose length is not the number of column names
    [SendDataSet] panics with "oh snap!": the row description and the rows
    before it have been sent by then, and nothing is sent after them, no
    command-complete message either. *)
Theorem SendDataSet_panics_on_short_row :
  forall (stream : list Message) (colnames : list string)
         (good rest : list (list QueryValue)) (bad : list QueryValue),
    (forall row, In row good -> List.length row = List.length colnames) ->
    List.length bad <> List.length colnames ->
    SendDataSet stream colnames (good ++ bad :: rest)
    = ((stream
        ++ [NewRowDescription (map (fun name => (name, STRING)) colnames)]
        ++ map (fun row => NewDataRow (map Value row)) good)%list,
       Some "oh snap!").
Proof.
  intros stream colnames good rest bad Hgood Hbad. unfold SendDataSet.
  rewrite sendRows_app by assumption. cbn [sendRows].
  apply Nat.eqb_neq in Hbad. rewrite Hbad. cbn [negb].
  now rewrite <- app_assoc.
Qed.

Lemma SendDataSet_panics_on_short_row_witness :
  SendDataSet [] ["key"; "value"]
    ([[QueryStr "a"; QueryStr "b"]] ++ [] :: [[QueryStr "c"; QueryStr "d"]])
  = (([]
      ++ [NewRowDescription (map (fun name => (name, STRING)) ["key"; "value"])]
      ++ map (fun row => NewDataRow (map Value row))
           [[QueryStr "a"; QueryStr "b"]])%list,
     Some "oh snap!").
Proof.
  apply (SendDataSet_panics_on_short_row [] ["key"; "value"]
           [[QueryStr "a"; QueryStr "b"]] [[QueryStr "c"; QueryStr "d"]] []).
  - intros row [<-|[]]. reflexivity.
  - discriminate.
Defined.

Lemma contains_slash (s : string) :
  contains "/" s = true <-> exists i, get i s = Some "/"%char.
Proof.
  induction s as [|c s IH]; cbn [contains].
  - split; [discriminate | intros [i H]; destruct i; discriminate].
  - cbn [prefix].
    destruct (ascii_dec "/" c) as [<-|Hne].
    + assert (prefix "" s = true) as -> by now destruct s.
      split; [intros _; now exists 0%nat | reflexivity].
    + cbn [orb]. rewrite IH. split.
      * intros [i H]. now exists (S i).
      * intros [[|i] H]; cbn [get] in H; [congruence | eauto].
Qed.

(** X25.  [autoListen] and [autoDial] pick the network in the same way: a
    place with a slash somewhere in it is a unix socket for both, and a
    place without one is a tcp address for both, so that what one listens on
    the other dials. *)
Theorem autoListen_autoDial_network :
  forall (L C : Type) (Listen : string -> string -> L)
         (Dial : string -> string -> C) (place : string),
    ((exists i, get i place = Some "/"%char) ->
     autoListen Listen place = Listen "unix" place /\
     autoDial Dial place = Dial "unix" place) /\
    ((forall i, get i place <> Some "/"%char) ->
     autoListen Listen place = Listen "tcp" place /\
     autoDial Dial place = Dial "tcp" place).
Proof.
  intros L C Listen Dial place. unfold autoListen, autoDial.
  pose proof (contains_slash place) as H.
  destruct (contains "/" place).
  - split; [auto|]. intros Hno. destruct (proj1 H eq_refl) as [i Hi].
    exfalso. exact (Hno i Hi).
  - split; [|auto]. intros Hex. apply H in Hex. discriminate.
Qed.
